(** * Notes manager: the record model, the JSON store and the commands

    A shallow embedding of [notebook/models.py], [notebook/storage.py] and
    [notebook/commands.py], and the properties of the note store proved
    over it.

    Python values read from the file are [json] values; a [Note] has the
    attribute types its class documents.  The file and the clock form the
    [World] that every function threads through; exceptions are outcomes. *)

From Stdlib Require Import ZArith NArith String Ascii.
From stdpp Require Import gmap strings list sorting.

Local Open Scope Z_scope.

(** ** Text *)

(** [str] is [string], the UTF-8 bytes of the text: substring tests and
    comparisons on the bytes agree with Python's on code points. *)

Definition ascii_lower_char (c : ascii) : ascii :=
  let n := N_of_ascii c in
  if ((65 <=? n) && (n <=? 90))%N then ascii_of_N (n + 32) else c.

Fixpoint ascii_lower (s : string) : string :=
  match s with
  | EmptyString => EmptyString
  | String c s' => String (ascii_lower_char c) (ascii_lower s')
  end.

Fixpoint is_ascii (s : string) : bool :=
  match s with
  | EmptyString => true
  | String c s' => (N_of_ascii c <? 128)%N && is_ascii s'
  end.

(** [str.lower].  Python lowers by the Unicode tables; what the
    development relies on is its action on ASCII text. *)
Class StrLower := {
  lower : string → string;
  lower_ascii : ∀ s, is_ascii s = true → lower s = ascii_lower s
}.

(** Lowering of texts without cased letters outside ASCII. *)
Definition AsciiLower : StrLower :=
  {| lower := ascii_lower; lower_ascii := fun _ _ => eq_refl |}.

(** [t in s] on strings. *)
Fixpoint str_in (t s : string) : bool :=
  String.prefix t s ||
  match s with
  | EmptyString => false
  | String _ s' => str_in t s'
  end.

(** The order of texts, by code points: [a <= b] is [String.le a b],
    [a < b] is [str_lt a b]. *)
Definition str_lt (a b : string) : Prop := String.ltb a b.

(** ** The clock *)

(** A [datetime] without time zone, as [datetime.now()] returns it. *)
Record datetime := mkDatetime {
  year : N;
  month : N;
  day : N;
  hour : N;
  minute : N;
  second : N;
  microsecond : N
}.

(** The ranges of the fields of a [datetime]. *)
Definition valid_datetime (d : datetime) : Prop :=
  (1 ≤ year d ≤ 9999 ∧ 1 ≤ month d ≤ 12 ∧ 1 ≤ day d ≤ 31 ∧
   hour d < 24 ∧ minute d < 60 ∧ second d < 60 ∧ microsecond d < 1000000)%N.

Definition digit (d : N) : ascii := ascii_of_N (48 + d).

(** [n] in [k] decimal digits, with leading zeros. *)
Fixpoint digits (k : nat) (n : N) : string :=
  match k with
  | O => EmptyString
  | S k' =>
      String (digit (n / 10 ^ N.of_nat k')) (digits k' (n mod 10 ^ N.of_nat k'))
  end.

(** [datetime.isoformat()]: [YYYY-MM-DDTHH:MM:SS], followed by [.ffffff]
    when the microseconds are not zero. *)
Definition isoformat (d : datetime) : string :=
  digits 4 (year d) +:+ "-" +:+ digits 2 (month d) +:+ "-" +:+
  digits 2 (day d) +:+ "T" +:+ digits 2 (hour d) +:+ ":" +:+
  digits 2 (minute d) +:+ ":" +:+ digits 2 (second d) +:+
  (if (microsecond d =? 0)%N then EmptyString
   else "." +:+ digits 6 (microsecond d)).

(** The first of two comparisons that is not [Eq]. *)
Definition lex (c1 c2 : comparison) : comparison :=
  match c1 with Eq => c2 | Lt => Lt | Gt => Gt end.

(** The order of time on [datetime]s. *)
Definition datetime_compare (a b : datetime) : comparison :=
  lex (year a ?= year b)%N
 (lex (month a ?= month b)%N
 (lex (day a ?= day b)%N
 (lex (hour a ?= hour b)%N
 (lex (minute a ?= minute b)%N
 (lex (second a ?= second b)%N
      (microsecond a ?= microsecond b)%N))))).

Definition datetime_le (a b : datetime) : Prop := datetime_compare a b ≠ Gt.
Definition datetime_lt (a b : datetime) : Prop := datetime_compare a b = Lt.

(** [datetime.now()]: [clock t] is what the [t]-th reading of the clock
    returns. *)
Class Clock := {
  clock : nat → datetime;
  clock_valid : ∀ t, valid_datetime (clock t)
}.

(** [datetime.now().isoformat()] at the [t]-th reading. *)
Definition now `{Clock} (t : nat) : string := isoformat (clock t).

(** [datetime.fromisoformat]: [fromisoformat_ok s] when it returns for the
    text [s]; it raises [ValueError] otherwise.  The texts it accepts
    depend on the version of Python. *)
Class FromIsoformat := {
  fromisoformat_ok : string → bool
}.

(** [fromisoformat] accepts what [isoformat] gave of a reading of the
    clock. *)
Definition accepts_readings `{Clock} `{FromIsoformat} : Prop :=
  ∀ t, fromisoformat_ok (now t) = true.

(** ** Values and outcomes *)

(** What [json.load] returns.  Of a float the program can observe only
    whether it is zero ([x or default]); it never writes one back. *)
#[warnings="-register-all"]
Inductive json : Type :=
| JNull
| JBool (b : bool)
| JInt (z : Z)
| JFloat (nonzero : bool)
| JStr (s : string)
| JArr (l : list json)
| JObj (m : gmap string json).

Inductive exn : Type :=
| JSONDecodeError
| KeyError (key : string)
| ValueError
| TypeError
| AttributeError
| FileNotFoundError
| RecursionError
| UnicodeDecodeError.

(** [Untyped]: the run goes on in Python with a [Note] that holds a value
    of another type than the class documents ([id (int)], [title (str)],
    [tags (list)] of [str], timestamps [str]); such runs are not followed. *)
Inductive outcome (A : Type) : Type :=
| Return (a : A)
| Raise (e : exn)
| Untyped.
Arguments Return {A} a.
Arguments Raise {A} e.
Arguments Untyped {A}.

(** The backing file, as [json.load] sees it: [Garbled] is any text it
    rejects with [JSONDecodeError] (an empty file is one); [Unparsed e]
    is a file at which it raises another exception [e] ([RecursionError]
    for JSON nested too deep, [UnicodeDecodeError] for bytes that are no
    text); [Document j] is a text it returns [j] for. *)
Inductive file_text : Type :=
| Garbled
| Unparsed (e : exn)
| Document (j : json).

Record World := mkWorld {
  file : option file_text;   (* [None]: the file does not exist *)
  ticks : nat                (* clock readings made so far *)
}.

Definition M (A : Type) : Type := World → outcome A * World.

Definition ret {A} (a : A) : M A := fun w => (Return a, w).
Definition raise {A} (e : exn) : M A := fun w => (Raise e, w).
Definition untyped {A} : M A := fun w => (Untyped, w).
Definition lift {A} (o : outcome A) : M A := fun w => (o, w).

Definition bind {A B} (m : M A) (f : A → M B) : M B :=
  fun w =>
    match m w with
    | (Return a, w') => f a w'
    | (Raise e, w') => (Raise e, w')
    | (Untyped, w') => (Untyped, w')
    end.

#[global] Instance M_ret : MRet M := @ret.
#[global] Instance M_bind : MBind M := fun A B f m => bind m f.

(** [try: m except (…): h], for the exceptions [caught] selects. *)
Definition try_except {A} (m : M A) (caught : exn → bool) (h : M A) : M A :=
  fun w =>
    match m w with
    | (Raise e, w') => if caught e then h w' else (Raise e, w')
    | r => r
    end.

(** ** models.py *)

Inductive NoteStatus := ACTIVE | ARCHIVED.
Inductive NotePriority := LOW | MEDIUM | HIGH.
Inductive NoteCategory := WORK | PERSONAL | STUDY | SHOPPING | IDEAS | OTHER.

#[global] Instance NoteStatus_eq_dec : EqDecision NoteStatus.
Proof. solve_decision. Defined.
#[global] Instance NotePriority_eq_dec : EqDecision NotePriority.
Proof. solve_decision. Defined.
#[global] Instance NoteCategory_eq_dec : EqDecision NoteCategory.
Proof. solve_decision. Defined.

Definition status_value (s : NoteStatus) : string :=
  match s with ACTIVE => "active" | ARCHIVED => "archived" end.

Definition priority_value (p : NotePriority) : string :=
  match p with LOW => "low" | MEDIUM => "medium" | HIGH => "high" end.

Definition category_value (c : NoteCategory) : string :=
  match c with
  | WORK => "work" | PERSONAL => "personal" | STUDY => "study"
  | SHOPPING => "shopping" | IDEAS => "ideas" | OTHER => "other"
  end.

(** The member of an enumeration with a given value: the first of the
    class whose value is the text. *)
Definition member_of {E} (members : list E) (value : E → string) (s : string)
  : option E :=
  List.find (fun m => String.eqb (value m) s) members.

(** [NoteStatus(v)], [NotePriority(v)], [NoteCategory(v)]: lookup by
    value, [ValueError] for anything that is no member's value. *)
Definition enum_call {E} (members : list E) (value : E → string) (v : json)
  : outcome E :=
  match v with
  | JStr s =>
      match member_of members value s with
      | Some m => Return m
      | None => Raise ValueError
      end
  | _ => Raise ValueError
  end.

Definition NoteStatus_call := enum_call [ACTIVE; ARCHIVED] status_value.
Definition NotePriority_call := enum_call [LOW; MEDIUM; HIGH] priority_value.
Definition NoteCategory_call :=
  enum_call [WORK; PERSONAL; STUDY; SHOPPING; IDEAS; OTHER] category_value.

Record Note := mkNote {
  id : Z;
  title : string;
  content : string;
  category : NoteCategory;
  priority : NotePriority;
  tags : list string;
  status : NoteStatus;
  created_at : string;
  updated_at : string
}.

(** Truth value of a Python value ([x or y], [if x:]). *)
Definition truthy (v : json) : bool :=
  match v with
  | JNull => false
  | JBool b => b
  | JInt z => negb (z =? 0)
  | JFloat nz => nz
  | JStr s => negb (String.eqb s EmptyString)
  | JArr l => match l with [] => false | _ => true end
  | JObj m => negb (bool_decide (m = ∅))
  end.

(** [v or d]: [d] is evaluated only when [v] is false. *)
Definition py_or (v : json) (d : M json) : M json :=
  if truthy v then ret v else d.

Definition as_int (v : json) : option Z :=
  match v with JInt z => Some z | _ => None end.

Definition as_str (v : json) : option string :=
  match v with JStr s => Some s | _ => None end.

Fixpoint as_str_list_aux (l : list json) : option (list string) :=
  match l with
  | [] => Some []
  | v :: l' =>
      match as_str v, as_str_list_aux l' with
      | Some s, Some ss => Some (s :: ss)
      | _, _ => None
      end
  end.

Definition as_str_list (v : json) : option (list string) :=
  match v with JArr l => as_str_list_aux l | _ => None end.

(** The attributes as the class documents them, or [Untyped]. *)
Definition typed_note (id_ title_ content_ : json) (cat : NoteCategory)
    (pri : NotePriority) (tags_ : json) (st : NoteStatus)
    (created_ updated_ : json) : outcome Note :=
  match as_int id_, as_str title_, as_str content_, as_str_list tags_,
        as_str created_, as_str updated_ with
  | Some i, Some t, Some c, Some tg, Some cr, Some up =>
      Return (mkNote i t c cat pri tg st cr up)
  | _, _, _, _, _, _ => Untyped
  end.

Definition str_list (l : list string) : json := JArr (JStr <$> l).

(** [Note.to_dict]. *)
Definition to_dict (n : Note) : json :=
  JObj (<["id" := JInt (id n)]>
       (<["title" := JStr (title n)]>
       (<["content" := JStr (content n)]>
       (<["category" := JStr (category_value (category n))]>
       (<["priority" := JStr (priority_value (priority n))]>
       (<["tags" := str_list (tags n)]>
       (<["status" := JStr (status_value (status n))]>
       (<["created_at" := JStr (created_at n)]>
       (<["updated_at" := JStr (updated_at n)]> ∅))))))))).

(** [data[key]] for a text key. *)
Definition subscript (data : json) (key : string) : outcome json :=
  match data with
  | JObj m =>
      match m !! key with
      | Some v => Return v
      | None => Raise (KeyError key)
      end
  | _ => Raise TypeError
  end.

(** [data.get(key, default)]. *)
Definition dict_get (data : json) (key : string) (dflt : json)
  : outcome json :=
  match data with
  | JObj m => Return (default dflt (m !! key))
  | _ => Raise AttributeError
  end.

(** [Note.__str__], which [str(note)] calls: it raises [ValueError] when
    [datetime.fromisoformat] rejects [created_at]; the text it returns
    otherwise is not modelled. *)
Definition Note_str `{FromIsoformat} (n : Note) : outcome unit :=
  if fromisoformat_ok (created_at n) then Return tt else Raise ValueError.

Section WithClock.
Context `{Clock}.

Definition read_clock : M string :=
  fun w => (Return (now (ticks w)), mkWorld (file w) (S (ticks w))).

Definition isoformat_now : M json :=
  s ← read_clock; ret (JStr s).

(** [Note.__init__]. *)
Definition Note_init (id_ title_ content_ : json) (cat : NoteCategory)
    (pri : NotePriority) (tags_ : json) (st : NoteStatus)
    (created_ updated_ : json) : M Note :=
  tags' ← py_or tags_ (ret (JArr []));
  created' ← py_or created_ isoformat_now;
  updated' ← py_or updated_ isoformat_now;
  lift (typed_note id_ title_ content_ cat pri tags' st created' updated').

(** [Note.from_dict]: the arguments are evaluated in the order written. *)
Definition from_dict (data : json) : M Note :=
  id_ ← lift (subscript data "id");
  title_ ← lift (subscript data "title");
  content_ ← lift (subscript data "content");
  category_ ← lift (subscript data "category");
  cat ← lift (NoteCategory_call category_);
  priority_ ← lift (subscript data "priority");
  pri ← lift (NotePriority_call priority_);
  tags_ ← lift (dict_get data "tags" (JArr []));
  status_ ← lift (subscript data "status");
  st ← lift (NoteStatus_call status_);
  created_ ← lift (dict_get data "created_at" JNull);
  updated_ ← lift (dict_get data "updated_at" JNull);
  Note_init id_ title_ content_ cat pri tags_ st created_ updated_.

Definition set_title (t : string) (n : Note) : Note :=
  mkNote (id n) t (content n) (category n) (priority n) (tags n) (status n)
    (created_at n) (updated_at n).
Definition set_content (c : string) (n : Note) : Note :=
  mkNote (id n) (title n) c (category n) (priority n) (tags n) (status n)
    (created_at n) (updated_at n).
Definition set_category (c : NoteCategory) (n : Note) : Note :=
  mkNote (id n) (title n) (content n) c (priority n) (tags n) (status n)
    (created_at n) (updated_at n).
Definition set_priority (p : NotePriority) (n : Note) : Note :=
  mkNote (id n) (title n) (content n) (category n) p (tags n) (status n)
    (created_at n) (updated_at n).
Definition set_tags (t : list string) (n : Note) : Note :=
  mkNote (id n) (title n) (content n) (category n) (priority n) t (status n)
    (created_at n) (updated_at n).
Definition set_status (s : NoteStatus) (n : Note) : Note :=
  mkNote (id n) (title n) (content n) (category n) (priority n) (tags n) s
    (created_at n) (updated_at n).
Definition set_updated_at (t : string) (n : Note) : Note :=
  mkNote (id n) (title n) (content n) (category n) (priority n) (tags n)
    (status n) (created_at n) t.

(** [if x is not None: self.f = x]. *)
Definition assign {A} (set : A → Note → Note) (x : option A) (n : Note) : Note :=
  match x with Some a => set a n | None => n end.

(** The assignments of [Note.update], in the order written. *)
Definition assigned (title_ content_ : option string)
    (category_ : option NoteCategory) (priority_ : option NotePriority)
    (tags_ : option (list string)) (n : Note) : Note :=
  let n := assign set_title title_ n in
  let n := assign set_content content_ n in
  let n := assign set_category category_ n in
  let n := assign set_priority priority_ n in
  assign set_tags tags_ n.

(** [Note.update]. *)
Definition update (title_ content_ : option string)
    (category_ : option NoteCategory) (priority_ : option NotePriority)
    (tags_ : option (list string)) (n : Note) : M Note :=
  let n := assigned title_ content_ category_ priority_ tags_ n in
  t ← read_clock;
  ret (set_updated_at t n).

(** ** storage.py *)

Definition _ensure_file_exists : M unit :=
  fun w =>
    match file w with
    | None => (Return tt, mkWorld (Some (Document (JArr []))) (ticks w))
    | Some _ => (Return tt, w)
    end.

(** [json.dump(j, f)] on the file opened for writing. *)
Definition json_dump (j : json) : M unit :=
  fun w => (Return tt, mkWorld (Some (Document j)) (ticks w)).

(** [json.load(f)] on the file opened for reading. *)
Definition json_load : M json :=
  fun w =>
    match file w with
    | Some (Document j) => (Return j, w)
    | Some Garbled => (Raise JSONDecodeError, w)
    | Some (Unparsed e) => (Raise e, w)
    | None => (Raise FileNotFoundError, w)
    end.

(** [for x in v]: the items of a list, the keys of a dict, the characters
    of a text (here its bytes, one text each). *)
Definition py_iter (v : json) : outcome (list json) :=
  match v with
  | JArr l => Return l
  | JObj m => Return (JStr <$> (map_to_list m).*1)
  | JStr s => Return ((fun c => JStr (String c EmptyString)) <$> list_ascii_of_string s)
  | _ => Raise TypeError
  end.

(** [[Note.from_dict(d) for d in data]].  After a record that gave an
    untyped note Python goes on, and may still raise at a later one. *)
Fixpoint from_dict_each (l : list json) : M (list Note) :=
  match l with
  | [] => ret []
  | d :: l' =>
      fun w =>
        match from_dict d w with
        | (Return n, w1) => (ns ← from_dict_each l'; ret (n :: ns)) w1
        | (Raise e, w1) => (Raise e, w1)
        | (Untyped, w1) =>
            match from_dict_each l' w1 with
            | (Raise e, w2) => (Raise e, w2)
            | (_, w2) => (Untyped, w2)
            end
        end
  end.

Definition save_notes (notes : list Note) : M unit :=
  _ensure_file_exists;;
  json_dump (JArr (to_dict <$> notes)).

Definition load_notes_caught (e : exn) : bool :=
  match e with
  | JSONDecodeError | KeyError _ => true
  | _ => false
  end.

Definition load_notes : M (list Note) :=
  _ensure_file_exists;;
  try_except
    (data ← json_load;
     items ← lift (py_iter data);
     from_dict_each items)
    load_notes_caught
    (ret []).

(** [max(xs)] for a first item [x] and the rest [l]: a later item
    replaces the current one when it is greater. *)
Definition py_max (x : Z) (l : list Z) : Z :=
  foldl (fun m y => if m <? y then y else m) x l.

(** The id after the ids of [notes]: 1 for no notes, else one more than
    the greatest. *)
Definition next_id_of (notes : list Note) : Z :=
  match notes with
  | [] => 1
  | n :: ns => py_max (id n) (id <$> ns) + 1
  end.

Definition get_next_id : M Z :=
  notes ← load_notes;
  ret (next_id_of notes).

(** [sorted(list(s))] for a set of texts. *)
Definition sorted_texts (s : gset string) : list string :=
  merge_sort String.le (elements s).

Definition get_all_tags : M (list string) :=
  notes ← load_notes;
  let all_tags : gset string := ⋃ ((fun n => list_to_set (tags n)) <$> notes) in
  ret (sorted_texts all_tags).

End WithClock.

(** ** commands.py *)

(** The text a command returns, by its form; the notes of a listing are
    the ones rendered, in order. *)
Inductive reply : Type :=
| BadCategory (given : string)      (* Ошибка: Неверная категория … *)
| BadPriority (given : string)      (* Ошибка: Неверный приоритет … *)
| BadStatus (given : string)        (* Ошибка: Неверный статус … *)
| NotFound (note_id : Z)            (* Ошибка: Заметка с ID #… не найдена *)
| Added (note_id : Z) (t : string)  (* Заметка добавлена (ID: …): … *)
| NoNotes                           (* Нет заметок *)
| NoMatch               (* Заметки не найдены по заданным критериям *)
| Listing (notes : list Note) (show_content : bool)
| SearchNoMatch (term : string)     (* Заметки по запросу '…' не найдены *)
| SearchHits (term : string) (notes : list Note)
| Deleted (note_id : Z) (t : string)
| AlreadyArchived (note_id : Z)
| Archived (note_id : Z) (t : string)
| Updated (note_id : Z) (t : string)
| NoTags                            (* Теги не найдены *)
| Tags (counts : list (string * nat)).

(** [l.sort(key=lambda x: x.created_at, reverse=True)].  The sort is
    stable, also in reverse: a note moves behind the notes of [l] with a
    strictly greater key only, so notes of equal key keep their order. *)
Fixpoint insert_desc (x : Note) (l : list Note) : list Note :=
  match l with
  | [] => [x]
  | y :: l' =>
      if String.ltb (created_at x) (created_at y)
      then y :: insert_desc x l'
      else x :: l
  end.

Definition sort_created_at_reverse (l : list Note) : list Note :=
  foldr insert_desc [] l.

(** The first note with the id, between the notes before and after it. *)
Fixpoint find_note (note_id : Z) (notes : list Note)
  : option (list Note * Note * list Note) :=
  match notes with
  | [] => None
  | n :: ns =>
      if id n =? note_id then Some ([], n, ns)
      else
        match find_note note_id ns with
        | Some (before, m, after) => Some (n :: before, m, after)
        | None => None
        end
  end.

(** [if arg:] for an optional text argument. *)
Definition supplied (arg : option string) : option string :=
  match arg with
  | Some s => if String.eqb s EmptyString then None else Some s
  | None => None
  end.

Section WithLower.
Context `{Clock} `{StrLower} `{FromIsoformat}.

(** The notes a reply renders, in order. *)
Definition notes_of (r : reply) : list Note :=
  match r with
  | Listing l _ => l
  | SearchHits _ l => l
  | _ => []
  end.

(** [for note in notes: result.append(str(note))]: the first [str(note)]
    that raises ends the loop. *)
Fixpoint str_each (l : list Note) : outcome unit :=
  match l with
  | [] => Return tt
  | n :: l' =>
      match Note_str n with
      | Return _ => str_each l'
      | Raise e => Raise e
      | Untyped => Untyped
      end
  end.

(** The text of a reply is built: its notes are rendered one by one. *)
Definition rendered (r : reply) : outcome reply :=
  match str_each (notes_of r) with
  | Return _ => Return r
  | Raise e => Raise e
  | Untyped => Untyped
  end.

Definition add_note (title_ content_ category_ priority_ : string)
    (tags_ : option (list string)) : M reply :=
  notes ← load_notes;
  match NoteCategory_call (JStr (lower category_)) with
  | Return note_category =>
      match NotePriority_call (JStr (lower priority_)) with
      | Return note_priority =>
          next_id ← get_next_id;
          new_note ← Note_init (JInt next_id) (JStr title_) (JStr content_)
                       note_category note_priority
                       (str_list (default [] tags_)) ACTIVE JNull JNull;
          save_notes (notes ++ [new_note]);;
          ret (Added (id new_note) title_)
      | _ => ret (BadPriority priority_)
      end
  | _ => ret (BadCategory category_)
  end.

(** One filter of [list_notes]: skipped when the argument is absent or
    empty, an error reply when it names no member. *)
Definition filter_by {E} `{EqDecision E} (arg : option string)
    (call : json → outcome E) (field : Note → E) (bad : string → reply)
    (notes : list Note) : reply + list Note :=
  match supplied arg with
  | Some s =>
      match call (JStr (lower s)) with
      | Return wanted => inr (filter (fun n => field n = wanted) notes)
      | _ => inl (bad s)
      end
  | None => inr notes
  end.

(** The reply of [list_notes] once the collection is loaded, before its
    notes are rendered. *)
Definition list_reply (category_ priority_ status_ : option string)
    (show_content : bool) (notes : list Note) : reply :=
  match notes with
  | [] => NoNotes
  | _ =>
      match filter_by category_ NoteCategory_call category BadCategory notes with
      | inl e => e
      | inr by_category =>
      match filter_by priority_ NotePriority_call priority BadPriority by_category with
      | inl e => e
      | inr by_priority =>
      match filter_by status_ NoteStatus_call status BadStatus by_priority with
      | inl e => e
      | inr filtered_notes =>
          match filtered_notes with
          | [] => NoMatch
          | _ => Listing (sort_created_at_reverse filtered_notes) show_content
          end
      end end end
  end.

Definition list_notes (category_ priority_ status_ : option string)
    (show_content : bool) : M reply :=
  notes ← load_notes;
  lift (rendered (list_reply category_ priority_ status_ show_content notes)).

(** [list_notes()] with the defaults of its signature. *)
Definition list_notes_default : M reply :=
  list_notes None None (Some "active") false.

Definition scope_in (search_in : string) (scopes : list string) : bool :=
  bool_decide (search_in ∈ scopes).

(** The [if]/[elif] chain of [search_notes], for the lowered term. *)
Definition matches (search_term search_in : string) (note : Note) : bool :=
  if scope_in search_in ["all"; "title"]
     && str_in search_term (lower (title note)) then true
  else if scope_in search_in ["all"; "content"]
     && str_in search_term (lower (content note)) then true
  else if scope_in search_in ["all"; "tags"]
     && existsb (fun tag => str_in search_term (lower tag)) (tags note) then true
  else false.

(** The reply of [search_notes] once the collection is loaded, before
    its notes are rendered. *)
Definition search_reply (search_term search_in : string) (notes : list Note)
  : reply :=
  match notes with
  | [] => NoNotes
  | _ =>
      let search_term := lower search_term in
      let found_notes :=
        filter (fun n => matches search_term search_in n) notes in
      match found_notes with
      | [] => SearchNoMatch search_term
      | _ => SearchHits search_term (sort_created_at_reverse found_notes)
      end
  end.

Definition search_notes (search_term search_in : string) : M reply :=
  notes ← load_notes;
  lift (rendered (search_reply search_term search_in notes)).

(** [search_notes(term)] with the default scope. *)
Definition search_notes_default (search_term : string) : M reply :=
  search_notes search_term "all".

Definition delete_note (note_id : Z) : M reply :=
  notes ← load_notes;
  match find_note note_id notes with
  | Some (before, note, after) =>
      save_notes (before ++ after);;
      ret (Deleted note_id (title note))
  | None => ret (NotFound note_id)
  end.

Definition archive_note (note_id : Z) : M reply :=
  notes ← load_notes;
  match find_note note_id notes with
  | Some (before, note, after) =>
      match status note with
      | ARCHIVED => ret (AlreadyArchived note_id)
      | ACTIVE =>
          t ← read_clock;
          let note := set_updated_at t (set_status ARCHIVED note) in
          save_notes (before ++ note :: after);;
          ret (Archived note_id (title note))
      end
  | None => ret (NotFound note_id)
  end.

(** The validation of an optional enumeration argument of [edit_note]. *)
Definition validated {E} (arg : option string) (call : json → outcome E)
    (bad : string → reply) : reply + option E :=
  match supplied arg with
  | Some s =>
      match call (JStr (lower s)) with
      | Return e => inr (Some e)
      | _ => inl (bad s)
      end
  | None => inr None
  end.

Definition edit_note (note_id : Z) (title_ content_ category_ priority_ : option string)
    (tags_ : option (list string)) : M reply :=
  notes ← load_notes;
  match find_note note_id notes with
  | Some (before, note, after) =>
      match validated category_ NoteCategory_call BadCategory with
      | inl e => ret e
      | inr note_category =>
      match validated priority_ NotePriority_call BadPriority with
      | inl e => ret e
      | inr note_priority =>
          note ← update title_ content_ note_category note_priority tags_ note;
          save_notes (before ++ note :: after);;
          ret (Updated note_id (title note))
      end end
  | None => ret (NotFound note_id)
  end.

(** The loop of [list_tags]: the collection is loaded again for each tag. *)
Fixpoint count_tags (tags_ : list string) : M (list (string * nat)) :=
  match tags_ with
  | [] => ret []
  | tag :: rest =>
      notes ← load_notes;
      let notes_with_tag := filter (fun n => tag ∈ tags n) notes in
      counts ← count_tags rest;
      ret ((tag, length notes_with_tag) :: counts)
  end.

Definition list_tags : M reply :=
  tags_ ← get_all_tags;
  match tags_ with
  | [] => ret NoTags
  | _ => counts ← count_tags tags_; ret (Tags counts)
  end.

(** The seven operations offered to the presentation layer. *)
Inductive op : Type :=
| Add (title_ content_ category_ priority_ : string) (tags_ : option (list string))
| List_ (category_ priority_ status_ : option string) (show_content : bool)
| Search (search_term search_in : string)
| Delete (note_id : Z)
| Archive (note_id : Z)
| Edit (note_id : Z) (title_ content_ category_ priority_ : option string)
    (tags_ : option (list string))
| ListTags.

Definition run (o : op) : M reply :=
  match o with
  | Add t c cat pri tg => add_note t c cat pri tg
  | List_ cat pri st sc => list_notes cat pri st sc
  | Search term scope => search_notes term scope
  | Delete i => delete_note i
  | Archive i => archive_note i
  | Edit i t c cat pri tg => edit_note i t c cat pri tg
  | ListTags => list_tags
  end.

(** The note an accepted [add_note] builds from the collection [ns]. *)
Definition added_note (ns : list Note) (t c : string) (cat : NoteCategory)
    (pri : NotePriority) (tg : option (list string)) (w : World) : Note :=
  mkNote (next_id_of ns) t c cat pri (default [] tg) ACTIVE
    (now (ticks w)) (now (S (ticks w))).

(** The worlds after the operations [ops], run in turn. *)
Definition after (ops : list op) (w : World) : World :=
  foldl (fun w o => (run o w).2) w ops.

End WithLower.

(** The worlds the operations lead to from a store without a file. *)
Inductive reachable `{Clock} `{StrLower} `{FromIsoformat} : World → Prop :=
| reachable_fresh t : reachable (mkWorld None t)
| reachable_run o w : reachable w → reachable (run o w).2.

(** The timestamps of [n] are readings of the clock made before the
    [t]-th, the one of [created_at] not after the one of [updated_at]. *)
Definition stamped_before `{Clock} (t : nat) (n : Note) : Prop :=
  ∃ i j, (i ≤ j < t)%nat ∧ created_at n = now i ∧ updated_at n = now j.

(** A later reading of the clock is not an earlier time. *)
Definition monotonic `{Clock} : Prop :=
  ∀ i j, (i ≤ j)%nat → datetime_le (clock i) (clock j).

Definition is_add (o : op) : Prop :=
  match o with Add _ _ _ _ _ => True | _ => False end.

(** ** A sample clock and sample stores *)

(** A clock that starts at midnight and advances by a microsecond at each
    reading, until the second is full. *)
Definition sample_clock (t : nat) : datetime :=
  mkDatetime 2024 1 1 0 0 0 (N.min (N.of_nat t) 999999).

Definition SampleClock : Clock :=
  {| clock := sample_clock;
     clock_valid := fun t =>
       ltac:(unfold valid_datetime, sample_clock; simpl; lia) |}.

Definition sample_now (t : nat) : string := isoformat (sample_clock t).

(** A sample [fromisoformat]: it accepts the texts of the form
    [YYYY-MM-DDTHH:MM:SS], followed or not by [.ffffff]. *)
Definition is_digit (c : ascii) : bool :=
  ((48 <=? N_of_ascii c) && (N_of_ascii c <=? 57))%N.

Fixpoint eat_digits (k : nat) (s : string) : option string :=
  match k with
  | O => Some s
  | S k' =>
      match s with
      | String c s' => if is_digit c then eat_digits k' s' else None
      | EmptyString => None
      end
  end.

Definition eat_char (c : ascii) (s : string) : option string :=
  match s with
  | String c' s' => if Ascii.eqb c c' then Some s' else None
  | EmptyString => None
  end.

(** A piece of a layout: [k] digits, or one given character. *)
Inductive piece : Type :=
| Digits (k : nat)
| Char (c : ascii).

Definition eat_piece (p : piece) (s : string) : option string :=
  match p with
  | Digits k => eat_digits k s
  | Char c => eat_char c s
  end.

(** What is left of [s] after the pieces [ps]. *)
Fixpoint eat (ps : list piece) (s : string) : option string :=
  match ps with
  | [] => Some s
  | p :: ps' =>
      match eat_piece p s with
      | Some s' => eat ps' s'
      | None => None
      end
  end.

Definition iso_shape (s : string) : bool :=
  match
    eat [Digits 4; Char "-"; Digits 2; Char "-"; Digits 2; Char "T";
         Digits 2; Char ":"; Digits 2; Char ":"; Digits 2] s
  with
  | Some EmptyString => true
  | Some rest =>
      match eat [Char "."; Digits 6] rest with
      | Some EmptyString => true
      | _ => false
      end
  | None => false
  end.

Definition IsoShape : FromIsoformat := {| fromisoformat_ok := iso_shape |}.

(** ** Predicates on notes, stores and runs *)

(** A note whose timestamps are set: what [Note.__init__] makes of every
    note, as [isoformat] never returns the empty text. *)
Definition timestamped (n : Note) : Prop :=
  created_at n ≠ EmptyString ∧ updated_at n ≠ EmptyString.

(** [str(n)] returns. *)
Definition renders `{FromIsoformat} (n : Note) : Prop :=
  fromisoformat_ok (created_at n) = true.

(** The store holds the collection [ns]: its file is the one
    [save_notes ns] writes, or is still missing while [ns] is empty. *)
Definition holds (w : World) (ns : list Note) : Prop :=
  Forall timestamped ns ∧
  (file w = Some (Document (JArr (to_dict <$> ns))) ∨ (file w = None ∧ ns = [])).

#[global] Instance timestamped_dec n : Decision (timestamped n).
Proof. unfold timestamped. apply _. Defined.

(** [term] occurs in [text] when case is ignored. *)
Definition ci_substring `{StrLower} (term text : string) : Prop :=
  ∃ before after_, lower text = before +:+ lower term +:+ after_.

(** The notes a reply lists. *)
Definition listed (r : outcome reply) : list Note :=
  match r with
  | Return (Listing l _) => l
  | Return (SearchHits _ l) => l
  | _ => []
  end.

(** [l] has the newest note first. *)
Definition newest_first (l : list Note) : Prop :=
  StronglySorted (fun a b => String.le (created_at b) (created_at a)) l.


(** The replies that report an invalid category, priority or status. *)
Definition validation_error (r : reply) : Prop :=
  match r with
  | BadCategory _ | BadPriority _ | BadStatus _ => True
  | _ => False
  end.

(** The reply that reports an id no note has. *)
Definition not_found (r : reply) : Prop :=
  match r with NotFound _ => True | _ => False end.

(** The world whose file [save_notes ns] wrote, at clock reading [t]. *)
Definition saved (ns : list Note) (t : nat) : World :=
  mkWorld (Some (Document (JArr (to_dict <$> ns)))) t.

(** The ids of a collection, in file order. *)
Definition ids (ns : list Note) : list Z := id <$> ns.

(** Two outcomes of building a note agree but for the fields other than
    the id: the same exception, or notes of the same id. *)
Definition same_ids (o o' : outcome Note) : Prop :=
  match o, o' with
  | Return n, Return n' => id n = id n'
  | Raise e, Raise e' => e = e'
  | Untyped, Untyped => True
  | _, _ => False
  end.

(** The same for the outcomes of a load. *)
Definition same_ids_list (o o' : outcome (list Note)) : Prop :=
  match o, o' with
  | Return l, Return l' => ids l = ids l'
  | Raise e, Raise e' => e = e'
  | Untyped, Untyped => True
  | _, _ => False
  end.

(** [i] is one greater than the greatest id of [ns], or 1 when [ns] is
    empty. *)
Definition one_above_max (ns : list Note) (i : Z) : Prop :=
  (ns = [] ∧ i = 1) ∨
  (i - 1 ∈ ids ns ∧ ∀ j, j ∈ ids ns → j ≤ i - 1).

(** What every reachable store satisfies: it holds a collection whose
    timestamps are earlier readings of the clock. *)
Definition settled `{Clock} (w : World) (ns : list Note) : Prop :=
  holds w ns ∧ Forall (stamped_before (ticks w)) ns.

(** What a load reads: the document of the file, the empty list when
    there is no file yet. *)
Definition contents (w : World) : file_text :=
  default (Document (JArr [])) (file w).

(** A computation that leaves the file as it is. *)
Definition keeps_file {A} (m : M A) : Prop :=
  ∀ w, file (m w).2 = file w.

(** ** Sample data *)

Definition milk : Note :=
  mkNote 1 "Buy milk" "2% milk, eggs" SHOPPING LOW ["errand"] ACTIVE
    (sample_now 0) (sample_now 1).

Definition report : Note :=
  mkNote 2 "Report" "Finish the WORK report" WORK HIGH ["Office"; "q3"]
    ARCHIVED (sample_now 2) (sample_now 5).

Definition fresh_world : World := mkWorld None 0.

(** A note written by hand, its [created_at] no ISO text. *)
Definition undated : Note :=
  mkNote 3 "Undated" "made by hand" OTHER MEDIUM [] ACTIVE
    "yesterday" (sample_now 1).

(** The store after [milk] and [report] were saved. *)
Definition two_notes_world : World := saved [milk; report] 9.

(** [milk] once archived at the third reading of the clock. *)
Definition milk_archived : Note :=
  mkNote 1 "Buy milk" "2% milk, eggs" SHOPPING LOW ["errand"] ARCHIVED
    (sample_now 0) (sample_now 2).

(** A file whose only record names a category that is no member. *)
Definition bogus_category_record : json :=
  JObj (<["id" := JInt 1]>
       (<["title" := JStr "t"]>
       (<["content" := JStr "c"]>
       (<["category" := JStr "bogus"]>
       (<["priority" := JStr "low"]>
       (<["status" := JStr "active"]> ∅)))))).

Definition bogus_category_world : World :=
  mkWorld (Some (Document (JArr [bogus_category_record]))) 0.

(** A record written by hand, its [created_at] later than its
    [updated_at]. *)
Definition backdated_record : json :=
  JObj (<["id" := JInt 1]>
       (<["title" := JStr "t"]>
       (<["content" := JStr "c"]>
       (<["category" := JStr "work"]>
       (<["priority" := JStr "low"]>
       (<["status" := JStr "active"]>
       (<["created_at" := JStr "2025-01-01T00:00:00"]>
       (<["updated_at" := JStr "2020-01-01T00:00:00"]> ∅)))))))).

(** A record without its ["title"]. *)
Definition untitled_record : json :=
  JObj (<["id" := JInt 1]>
       (<["content" := JStr "c"]>
       (<["category" := JStr "work"]>
       (<["priority" := JStr "low"]>
       (<["status" := JStr "active"]> ∅))))).

(** ** Further predicates and sample stores *)


(** A value whose iteration gives no item: the empty dict and the empty
    text, among the values that are no list. *)
Definition iterates_nothing (j : json) : bool :=
  match j with
  | JObj m => bool_decide (m = ∅)
  | JStr s => String.eqb s EmptyString
  | _ => false
  end.

Definition is_list (j : json) : bool :=
  match j with JArr _ => true | _ => false end.

(** The operations that only read the store. *)
Definition is_query (o : op) : Prop :=
  match o with
  | List_ _ _ _ _ | Search _ _ | ListTags => True
  | _ => False
  end.

(** A store whose file holds [milk], [report] and then a record without
    its title. *)
Definition damaged_world : World :=
  mkWorld
    (Some (Document (JArr [to_dict milk; to_dict report; untitled_record])))
    9.

(** A record with the required keys only. *)
Definition bare_record : json :=
  JObj (<["id" := JInt 7]>
       (<["title" := JStr "Bare"]>
       (<["content" := JStr "no optional key"]>
       (<["category" := JStr "ideas"]>
       (<["priority" := JStr "high"]>
       (<["status" := JStr "archived"]> ∅)))))).


(** The values of the members, in the order of each class:
    [[m.value for m in NoteCategory]] and the like. *)
Definition category_values : list string :=
  category_value <$> [WORK; PERSONAL; STUDY; SHOPPING; IDEAS; OTHER].
Definition priority_values : list string :=
  priority_value <$> [LOW; MEDIUM; HIGH].
Definition status_values : list string :=
  status_value <$> [ACTIVE; ARCHIVED].

Section Filters.
Context `{StrLower}.

(** A field of value [value] passes the filter of an optional argument:
    the argument is absent or empty, or it is the value but for case. *)
Definition passes (arg : option string) (value : string) : Prop :=
  match supplied arg with
  | Some s => lower s = value
  | None => True
  end.

(** An optional argument the validation accepts: absent, empty, or one of
    [values] but for case. *)
Definition accepted (arg : option string) (values : list string) : Prop :=
  ∀ s, supplied arg = Some s → lower s ∈ values.

End Filters.

(** The ids of a collection are distinct and positive. *)
Definition well_numbered (ns : list Note) : Prop :=
  NoDup (ids ns) ∧ ∀ i, i ∈ ids ns → 1 ≤ i.

(** The reply of a query on a store without notes. *)
Definition empty_reply (o : op) : reply :=
  match o with ListTags => NoTags | _ => NoNotes end.
(** ** The clock: the order of ISO texts is the order of time *)

Lemma append_nil s : EmptyString +:+ s = s.
Proof. reflexivity. Qed.

Lemma append_cons c s s' : String c s +:+ s' = String c (s +:+ s').
Proof. reflexivity. Qed.

Lemma compare_append_same_length u u' v v' :
  String.length u = String.length u' →
  String.compare (u +:+ v) (u' +:+ v')
  = lex (String.compare u u') (String.compare v v').
Proof.
  revert u'. induction u as [|c u IH]; intros [|c' u'] Hlen; try done.
  rewrite !append_cons. simpl. injection Hlen as Hlen.
  destruct (Ascii.compare c c'); [by apply IH | done..].
Qed.

Lemma length_digits k n : String.length (digits k n) = k.
Proof. revert n. induction k as [|k IH]; intros n; simpl; [done | by rewrite IH]. Qed.

Lemma compare_digit a b :
  (a < 10)%N → (b < 10)%N → Ascii.compare (digit a) (digit b) = (a ?= b)%N.
Proof.
  intros Ha Hb. unfold Ascii.compare, digit.
  rewrite !N_ascii_embedding by lia.
  destruct (N.compare_spec a b);
    [apply N.compare_eq_iff | apply N.compare_lt_iff | apply N.compare_gt_iff];
    lia.
Qed.

Lemma compare_div_mod p x y :
  (0 < p)%N →
  lex (x / p ?= y / p)%N (x mod p ?= y mod p)%N = (x ?= y)%N.
Proof.
  intros Hp.
  pose proof (N.div_mod x p ltac:(lia)) as Hx.
  pose proof (N.div_mod y p ltac:(lia)) as Hy.
  pose proof (N.mod_lt x p ltac:(lia)) as Hxm.
  pose proof (N.mod_lt y p ltac:(lia)) as Hym.
  revert Hx Hy Hxm Hym.
  generalize (x / p)%N (x mod p)%N (y / p)%N (y mod p)%N.
  intros q1 r1 q2 r2 -> -> Hr1 Hr2. unfold lex.
  destruct (N.compare_spec q1 q2) as [-> | Hq | Hq].
  - destruct (N.compare_spec r1 r2) as [Hr | Hr | Hr]; symmetry;
      [apply N.compare_eq_iff | apply N.compare_lt_iff
      | apply N.compare_gt_iff]; lia.
  - symmetry. apply N.compare_lt_iff. nia.
  - symmetry. apply N.compare_gt_iff. nia.
Qed.

Lemma compare_digits k x y :
  (x < 10 ^ N.of_nat k)%N → (y < 10 ^ N.of_nat k)%N →
  String.compare (digits k x) (digits k y) = (x ?= y)%N.
Proof.
  revert x y. induction k as [|k IH]; intros x y Hx Hy.
  - simpl in *. assert (x = 0%N) as -> by lia. by assert (y = 0%N) as -> by lia.
  - rewrite Nat2N.inj_succ, N.pow_succ_r' in Hx, Hy.
    assert (0 < 10 ^ N.of_nat k)%N as Hp by (apply N.neq_0_lt_0, N.pow_nonzero; lia).
    cbn [digits String.compare].
    rewrite compare_digit, IH.
    + apply (compare_div_mod _ _ _ Hp).
    + by apply N.mod_lt, N.neq_0_lt_0.
    + by apply N.mod_lt, N.neq_0_lt_0.
    + apply N.Div0.div_lt_upper_bound. lia.
    + apply N.Div0.div_lt_upper_bound. lia.
Qed.

Lemma compare_append_prefix p a b :
  String.compare (p +:+ a) (p +:+ b) = String.compare a b.
Proof.
  induction p as [|c p IH]; [done|].
  rewrite !append_cons. simpl.
  unfold Ascii.compare. by rewrite N.compare_refl.
Qed.

Lemma compare_fraction a b :
  (a < 1000000)%N → (b < 1000000)%N →
  String.compare
    (if (a =? 0)%N then EmptyString else "." +:+ digits 6 a)
    (if (b =? 0)%N then EmptyString else "." +:+ digits 6 b)
  = (a ?= b)%N.
Proof.
  intros Ha Hb.
  destruct (N.eqb_spec a 0) as [-> | Ha0], (N.eqb_spec b 0) as [-> | Hb0].
  - done.
  - by destruct b.
  - by destruct a.
  - rewrite compare_append_prefix. by apply (compare_digits 6).
Qed.

Lemma compare_isoformat a b :
  valid_datetime a → valid_datetime b →
  String.compare (isoformat a) (isoformat b) = datetime_compare a b.
Proof.
  intros (Hy & Hm & Hd & Hh & Hmi & Hs & Hu) (Hy' & Hm' & Hd' & Hh' & Hmi' & Hs' & Hu').
  unfold isoformat, datetime_compare.
  repeat (rewrite compare_append_same_length by (by rewrite !length_digits);
          try rewrite compare_append_prefix).
  rewrite compare_fraction by done.
  rewrite (compare_digits 4), !(compare_digits 2) by (simpl; lia).
  done.
Qed.

Lemma isoformat_nonempty d : isoformat d ≠ EmptyString.
Proof. unfold isoformat. cbn [digits]. by rewrite append_cons. Qed.

Section ClockOrder.
Context `{Clock}.

Lemma now_nonempty t : now t ≠ EmptyString.
Proof. apply isoformat_nonempty. Qed.

Lemma monotonic_now i j :
  monotonic → (i ≤ j)%nat → String.le (now i) (now j).
Proof.
  intros Hmono Hij. specialize (Hmono i j Hij).
  unfold String.le, String.leb, now.
  rewrite compare_isoformat by apply clock_valid.
  unfold datetime_le in Hmono. by destruct (datetime_compare _ _).
Qed.

Lemma earlier_now d j :
  valid_datetime d → datetime_lt d (clock j) → str_lt (isoformat d) (now j).
Proof.
  intros Hd Hlt. unfold str_lt, String.ltb, now.
  rewrite compare_isoformat by (done || apply clock_valid).
  unfold datetime_lt in Hlt. by rewrite Hlt.
Qed.

End ClockOrder.

(** ** The sample [fromisoformat] accepts what [isoformat] gives *)

Lemma is_digit_digit q : (q < 10)%N → is_digit (digit q) = true.
Proof.
  intros Hq. unfold is_digit, digit. rewrite N_ascii_embedding by lia.
  apply andb_true_intro. split; apply N.leb_le; lia.
Qed.

Lemma eat_digits_digits k n rest :
  (n < 10 ^ N.of_nat k)%N → eat_digits k (digits k n +:+ rest) = Some rest.
Proof.
  revert n. induction k as [|k IH]; intros n Hn; [done|].
  rewrite Nat2N.inj_succ, N.pow_succ_r' in Hn.
  assert (0 < 10 ^ N.of_nat k)%N as Hp
    by (apply N.neq_0_lt_0, N.pow_nonzero; lia).
  cbn [digits]. rewrite append_cons. cbn [eat_digits].
  rewrite is_digit_digit by (apply N.Div0.div_lt_upper_bound; lia).
  apply IH. by apply N.mod_lt, N.neq_0_lt_0.
Qed.

Lemma append_nil_r s : s +:+ EmptyString = s.
Proof. induction s as [|c s IH]; [done|]. by rewrite append_cons, IH. Qed.

Lemma iso_shape_isoformat d : valid_datetime d → iso_shape (isoformat d) = true.
Proof.
  intros (Hy & Hmo & Hd & Hh & Hmi & Hs & Hus).
  unfold iso_shape, isoformat. cbn [eat eat_piece].
  rewrite eat_digits_digits by (simpl; lia).
  rewrite append_cons, append_nil. cbn [eat_char Ascii.eqb Bool.eqb].
  rewrite eat_digits_digits by (simpl; lia).
  rewrite append_cons, append_nil. cbn [eat_char Ascii.eqb Bool.eqb].
  rewrite eat_digits_digits by (simpl; lia).
  rewrite append_cons, append_nil. cbn [eat_char Ascii.eqb Bool.eqb].
  rewrite eat_digits_digits by (simpl; lia).
  rewrite append_cons, append_nil. cbn [eat_char Ascii.eqb Bool.eqb].
  rewrite eat_digits_digits by (simpl; lia).
  rewrite append_cons, append_nil. cbn [eat_char Ascii.eqb Bool.eqb].
  rewrite eat_digits_digits by (simpl; lia).
  destruct (microsecond d =? 0)%N; [done|].
  rewrite append_cons, append_nil. cbn [eat eat_piece eat_char Ascii.eqb Bool.eqb].
  rewrite <- (append_nil_r (digits 6 (microsecond d))).
  by rewrite eat_digits_digits by (simpl; lia).
Qed.

Lemma iso_shape_accepts_readings `{Clock} : @accepts_readings _ IsoShape.
Proof. intros t. apply iso_shape_isoformat, clock_valid. Qed.

(** ** Runs: unfolding and framing *)

Lemma bind_run {A B} (m : M A) (f : A → M B) (w : World) :
  (m ≫= f) w =
  match m w with
  | (Return a, w') => f a w'
  | (Raise e, w') => (Raise e, w')
  | (Untyped, w') => (Untyped, w')
  end.
Proof. reflexivity. Qed.

Lemma bind_lift_return {A B} (a : A) (f : A → M B) (w : World) :
  (lift (Return a) ≫= f) w = f a w.
Proof. reflexivity. Qed.

Lemma bind_lift {A B} (o : outcome A) (f : A → M B) (w : World) :
  (lift o ≫= f) w =
  match o with
  | Return a => f a w
  | Raise e => (Raise e, w)
  | Untyped => (Untyped, w)
  end.
Proof. by destruct o. Qed.

Lemma keeps_file_ret {A} (a : A) : keeps_file (ret a).
Proof. intros w. reflexivity. Qed.

Lemma keeps_file_mret {A} (a : A) : keeps_file (mret a : M A).
Proof. intros w. reflexivity. Qed.

Lemma keeps_file_lift {A} (o : outcome A) : keeps_file (lift o).
Proof. intros w. reflexivity. Qed.

Lemma keeps_file_bind {A B} (m : M A) (f : A → M B) :
  keeps_file m → (∀ a, keeps_file (f a)) → keeps_file (m ≫= f).
Proof.
  intros Hm Hf w. rewrite bind_run. specialize (Hm w).
  destruct (m w) as [[a|e|] w']; simpl in *; try done.
  by rewrite Hf.
Qed.

Lemma keeps_file_try_except {A} (m h : M A) caught :
  keeps_file m → keeps_file h → keeps_file (try_except m caught h).
Proof.
  intros Hm Hh w. unfold try_except. specialize (Hm w).
  destruct (m w) as [[a|e|] w']; simpl in *; try done.
  destruct (caught e); simpl; [by rewrite Hh | done].
Qed.

Create HintDb keeps discriminated.
#[global] Hint Resolve keeps_file_ret keeps_file_mret keeps_file_lift : keeps.

Section Frames.
Context `{Clock}.

Lemma keeps_file_read_clock : keeps_file read_clock.
Proof. intros w. reflexivity. Qed.

Lemma keeps_file_isoformat_now : keeps_file isoformat_now.
Proof.
  apply keeps_file_bind; [apply keeps_file_read_clock | auto with keeps].
Qed.

Lemma keeps_file_py_or v d : keeps_file d → keeps_file (py_or v d).
Proof. intros Hd. unfold py_or. destruct (truthy v); auto with keeps. Qed.

Lemma keeps_file_Note_init i t c cat pri tg st cr up :
  keeps_file (Note_init i t c cat pri tg st cr up).
Proof.
  unfold Note_init.
  repeat (apply keeps_file_bind; [| intros ?]);
    auto using keeps_file_py_or, keeps_file_isoformat_now with keeps.
Qed.

Lemma keeps_file_from_dict d : keeps_file (from_dict d).
Proof.
  unfold from_dict.
  repeat (apply keeps_file_bind; [| intros ?]);
    auto using keeps_file_py_or, keeps_file_isoformat_now with keeps.
Qed.

Lemma keeps_file_from_dict_each l : keeps_file (from_dict_each l).
Proof.
  induction l as [|d l IH]; intros w; simpl; [done|].
  pose proof (keeps_file_from_dict d w) as Hd.
  destruct (from_dict d w) as [[n|e|] w1]; simpl in *; try done.
  - rewrite bind_run. specialize (IH w1).
    destruct (from_dict_each l w1) as [[ns|e|] w2]; simpl in *; congruence.
  - specialize (IH w1).
    destruct (from_dict_each l w1) as [[ns|e|] w2]; simpl in *; congruence.
Qed.

Lemma keeps_file_json_load : keeps_file json_load.
Proof. intros w. unfold json_load. by destruct (file w) as [[|e|j]|] eqn:E. Qed.

(** A load leaves an existing file as it is and creates a missing one
    with the empty list. *)
Lemma load_notes_file w : file (load_notes w).2 = Some (contents w).
Proof.
  unfold load_notes. rewrite bind_run. unfold _ensure_file_exists at 1.
  assert (keeps_file (try_except
    (data ← json_load; items ← lift (py_iter data); from_dict_each items)
    load_notes_caught (ret [])) ) as Hk.
  { apply keeps_file_try_except; [| auto with keeps].
    repeat (apply keeps_file_bind; [| intros ?]);
      auto using keeps_file_json_load, keeps_file_from_dict_each with keeps. }
  unfold contents.
  destruct (file w) as [c|] eqn:Hf; rewrite Hk; simpl; done.
Qed.

Lemma save_notes_run ns w :
  save_notes ns w =
  (Return tt, mkWorld (Some (Document (JArr (to_dict <$> ns)))) (ticks w)).
Proof.
  unfold save_notes. rewrite bind_run. unfold _ensure_file_exists, json_dump.
  by destruct (file w).
Qed.

End Frames.

(** ** The record round trip *)

Lemma NoteCategory_call_value c :
  NoteCategory_call (JStr (category_value c)) = Return c.
Proof. by destruct c. Qed.

Lemma NotePriority_call_value p :
  NotePriority_call (JStr (priority_value p)) = Return p.
Proof. by destruct p. Qed.

Lemma NoteStatus_call_value s :
  NoteStatus_call (JStr (status_value s)) = Return s.
Proof. by destruct s. Qed.

Lemma as_str_list_str_list l : as_str_list (str_list l) = Some l.
Proof.
  unfold as_str_list, str_list.
  induction l as [|s l IH]; [done|].
  rewrite fmap_cons. simpl. by rewrite IH.
Qed.

Lemma truthy_JStr s : s ≠ EmptyString → truthy (JStr s) = true.
Proof.
  intros Hs. simpl. destruct (String.eqb_spec s EmptyString); [done | reflexivity].
Qed.

Section RoundTrip.
Context `{Clock}.

(** The tags pass [tags or []] unchanged: the empty list is replaced by
    an empty list. *)
Lemma py_or_tags l w :
  py_or (str_list l) (ret (JArr [])) w = (Return (str_list l), w).
Proof. by destruct l. Qed.

Lemma py_or_timestamp s d w :
  s ≠ EmptyString → py_or (JStr s) d w = (Return (JStr s), w).
Proof. intros Hs. unfold py_or. by rewrite truthy_JStr. Qed.

Lemma from_dict_to_dict n w :
  timestamped n → from_dict (to_dict n) w = (Return n, w).
Proof.
  intros [Hc Hu]. unfold from_dict.
  change (subscript (to_dict n) "id") with (Return (A:=json) (JInt (id n))).
  change (subscript (to_dict n) "title") with (Return (A:=json) (JStr (title n))).
  change (subscript (to_dict n) "content")
    with (Return (A:=json) (JStr (content n))).
  change (subscript (to_dict n) "category")
    with (Return (A:=json) (JStr (category_value (category n)))).
  change (subscript (to_dict n) "priority")
    with (Return (A:=json) (JStr (priority_value (priority n)))).
  change (subscript (to_dict n) "status")
    with (Return (A:=json) (JStr (status_value (status n)))).
  change (dict_get (to_dict n) "tags" (JArr []))
    with (Return (A:=json) (str_list (tags n))).
  change (dict_get (to_dict n) "created_at" JNull)
    with (Return (A:=json) (JStr (created_at n))).
  change (dict_get (to_dict n) "updated_at" JNull)
    with (Return (A:=json) (JStr (updated_at n))).
  rewrite !bind_lift_return.
  rewrite NoteCategory_call_value, bind_lift_return.
  rewrite bind_lift_return.
  rewrite NotePriority_call_value, !bind_lift_return.
  rewrite NoteStatus_call_value, !bind_lift_return.
  unfold Note_init.
  rewrite bind_run, py_or_tags.
  rewrite bind_run, py_or_timestamp by done.
  rewrite bind_run, py_or_timestamp by done.
  unfold lift, typed_note. rewrite as_str_list_str_list. simpl.
  by destruct n.
Qed.

Lemma from_dict_each_to_dict ns w :
  Forall timestamped ns → from_dict_each (to_dict <$> ns) w = (Return ns, w).
Proof.
  induction 1 as [|n ns Hn _ IH]; [done|].
  rewrite fmap_cons. cbn [from_dict_each].
  rewrite from_dict_to_dict by done. by rewrite bind_run, IH.
Qed.

(** *** What a load returns is timestamped *)

Lemma bind_Return {A B} (m : M A) (f : A → M B) w b w' :
  (m ≫= f) w = (Return b, w') →
  ∃ a w1, m w = (Return a, w1) ∧ f a w1 = (Return b, w').
Proof.
  rewrite bind_run. destruct (m w) as [[a|e|] w1]; [|done..].
  intros Hf. by exists a, w1.
Qed.

Lemma py_or_isoformat_now v w v' w' s :
  py_or v isoformat_now w = (Return v', w') →
  as_str v' = Some s → s ≠ EmptyString.
Proof.
  unfold py_or. destruct (truthy v) eqn:Hv.
  - intros [= <- <-]. destruct v; try done. intros [= <-].
    simpl in Hv. by destruct (String.eqb_spec s0 EmptyString).
  - unfold isoformat_now. rewrite bind_run. cbn [read_clock]. unfold ret.
    intros [= <- <-]. intros [= <-]. apply now_nonempty.
Qed.

Lemma Note_init_timestamped i t c cat pri tg st cr up w n w' :
  Note_init i t c cat pri tg st cr up w = (Return n, w') → timestamped n.
Proof.
  unfold Note_init.
  intros (tg' & w1 & _ & Hr)%bind_Return.
  apply bind_Return in Hr as (cr' & w2 & Hcr & Hr).
  apply bind_Return in Hr as (up' & w3 & Hup & Hr).
  unfold lift, typed_note in Hr.
  destruct (as_int i), (as_str t), (as_str c), (as_str_list tg'); try done.
  destruct (as_str cr') as [scr|] eqn:Ecr; [|done].
  destruct (as_str up') as [sup|] eqn:Eup; [|done].
  injection Hr as <- <-. split; simpl.
  - exact (py_or_isoformat_now _ _ _ _ _ Hcr Ecr).
  - exact (py_or_isoformat_now _ _ _ _ _ Hup Eup).
Qed.

Lemma from_dict_timestamped d w n w' :
  from_dict d w = (Return n, w') → timestamped n.
Proof.
  unfold from_dict. intros Hr.
  do 12 (apply bind_Return in Hr as (? & ? & _ & Hr)).
  by eapply Note_init_timestamped.
Qed.

Lemma from_dict_each_timestamped l w ns w' :
  from_dict_each l w = (Return ns, w') → Forall timestamped ns.
Proof.
  revert w ns w'. induction l as [|d l IH]; intros w ns w'; simpl.
  - intros [= <- <-]. constructor.
  - destruct (from_dict d w) as [[n|e|] w1] eqn:Hd; [|done|].
    + intros (ns' & w2 & Hl & Hr)%bind_Return. injection Hr as <- <-.
      constructor; [by eapply from_dict_timestamped | by eapply IH].
    + by destruct (from_dict_each l w1) as [[?|?|] ?].
Qed.

Lemma load_notes_timestamped w ns w' :
  load_notes w = (Return ns, w') → Forall timestamped ns.
Proof.
  unfold load_notes. intros (? & w1 & _ & Hr)%bind_Return.
  unfold try_except in Hr.
  destruct ((json_load ≫= _) w1) as [[ns'|e|] w2] eqn:Hin.
  - injection Hr as <- <-.
    apply bind_Return in Hin as (data & w3 & _ & Hin).
    apply bind_Return in Hin as (items & w4 & _ & Hin).
    by eapply from_dict_each_timestamped.
  - destruct (load_notes_caught e); [|done].
    injection Hr as <- <-. constructor.
  - done.
Qed.

(** *** A load does not depend on the clock but for the timestamps *)

Lemma Note_init_same_ids i t c cat pri tg st cr up w w' :
  same_ids (Note_init i t c cat pri tg st cr up w).1
           (Note_init i t c cat pri tg st cr up w').1.
Proof.
  unfold Note_init, py_or, isoformat_now.
  destruct (truthy tg), (truthy cr), (truthy up);
    rewrite ?bind_run; cbn [read_clock ret lift fst snd ticks file];
    rewrite ?bind_run; cbn [read_clock ret lift fst snd ticks file];
    unfold typed_note;
    destruct (as_int i), (as_str t), (as_str c); simpl; try done;
    repeat case_match; done.
Qed.

Lemma from_dict_same_ids d w w' :
  same_ids (from_dict d w).1 (from_dict d w').1.
Proof.
  unfold from_dict. rewrite !bind_lift.
  destruct (subscript d "id"); [|done..]. rewrite !bind_lift.
  destruct (subscript d "title"); [|done..]. rewrite !bind_lift.
  destruct (subscript d "content"); [|done..]. rewrite !bind_lift.
  destruct (subscript d "category"); [|done..]. rewrite !bind_lift.
  destruct (NoteCategory_call _); [|done..]. rewrite !bind_lift.
  destruct (subscript d "priority"); [|done..]. rewrite !bind_lift.
  destruct (NotePriority_call _); [|done..]. rewrite !bind_lift.
  destruct (dict_get d "tags" _); [|done..]. rewrite !bind_lift.
  destruct (subscript d "status"); [|done..]. rewrite !bind_lift.
  destruct (NoteStatus_call _); [|done..]. rewrite !bind_lift.
  destruct (dict_get d "created_at" _); [|done..]. rewrite !bind_lift.
  destruct (dict_get d "updated_at" _); [|done..].
  apply Note_init_same_ids.
Qed.

Lemma from_dict_each_same_ids l w w' :
  same_ids_list (from_dict_each l w).1 (from_dict_each l w').1.
Proof.
  revert w w'. induction l as [|d l IH]; intros w w'; [done|].
  cbn [from_dict_each].
  pose proof (from_dict_same_ids d w w') as Hd.
  destruct (from_dict d w) as [[n|e|] w1], (from_dict d w') as [[n'|e'|] w1'];
    simpl in Hd; try done.
  - rewrite !bind_run. specialize (IH w1 w1').
    destruct (from_dict_each l w1) as [[ns|e|] w2],
             (from_dict_each l w1') as [[ns'|e'|] w2']; simpl in *; try done.
    unfold ids in *. simpl in *. congruence.
  - specialize (IH w1 w1').
    by destruct (from_dict_each l w1) as [[ns|e|] w2],
                (from_dict_each l w1') as [[ns'|e'|] w2'].
Qed.

Lemma load_notes_same_ids w w' :
  contents w = contents w' →
  same_ids_list (load_notes w).1 (load_notes w').1.
Proof.
  intros Hc. unfold load_notes. rewrite !bind_run.
  assert (∀ v, (_ensure_file_exists v).1 = Return tt
               ∧ file (_ensure_file_exists v).2 = Some (contents v)) as He.
  { intros [[f|] t]; split; reflexivity. }
  destruct (He w) as [H1 H2], (He w') as [H1' H2'].
  destruct (_ensure_file_exists w) as [o1 w1], (_ensure_file_exists w') as [o1' w1'].
  simpl in *. subst o1 o1'. rewrite <- Hc in H2'.
  unfold try_except. rewrite !bind_run. unfold json_load. rewrite H2, H2'.
  destruct (contents w) as [|e|j];
    [done | by destruct (load_notes_caught e) |].
  rewrite !bind_lift.
  destruct (py_iter j) as [items|e|];
    [|by destruct (load_notes_caught e) | done].
  pose proof (from_dict_each_same_ids items w1 w1') as Hl.
  destruct (from_dict_each items w1) as [[ns|e|] w2],
           (from_dict_each items w1') as [[ns'|e'|] w2']; simpl in *; try done.
  subst e'. by destruct (load_notes_caught e).
Qed.

End RoundTrip.

(** ** The store *)

Section Store.
Context `{Clock}.

Lemma load_notes_saved ns t :
  Forall timestamped ns →
  load_notes (mkWorld (Some (Document (JArr (to_dict <$> ns)))) t) =
  (Return ns, mkWorld (Some (Document (JArr (to_dict <$> ns)))) t).
Proof.
  intros Hns. unfold load_notes, try_except.
  rewrite bind_run. cbn [_ensure_file_exists file].
  rewrite bind_run. cbn [json_load file].
  cbn [py_iter].
  rewrite bind_lift_return, from_dict_each_to_dict by done. done.
Qed.

Lemma load_notes_missing t :
  load_notes (mkWorld None t) =
  (Return [], mkWorld (Some (Document (JArr []))) t).
Proof. reflexivity. Qed.

Lemma load_notes_holds w ns :
  holds w ns →
  load_notes w =
  (Return ns, mkWorld (Some (Document (JArr (to_dict <$> ns)))) (ticks w)).
Proof.
  intros [Hts [Hf | [Hf ->]]]; destruct w as [f t]; simpl in Hf; subst f.
  - by apply load_notes_saved.
  - apply load_notes_missing.
Qed.

Lemma holds_saved ns t :
  Forall timestamped ns →
  holds (mkWorld (Some (Document (JArr (to_dict <$> ns)))) t) ns.
Proof. intros Hts. split; [done | by left]. Qed.

(** C3.  Saving a collection of timestamped notes and loading it back
    gives the same notes, field for field and in the same order; each
    note is rebuilt by [from_dict] from its [to_dict]. *)
Theorem save_load_round_trip (ns : list Note) (w : World) :
  Forall timestamped ns →
  load_notes (save_notes ns w).2 = (Return ns, (save_notes ns w).2) ∧
  ∀ n w', n ∈ ns → from_dict (to_dict n) w' = (Return n, w').
Proof.
  intros Hts. split.
  - rewrite save_notes_run. simpl. by apply load_notes_saved.
  - intros n w' Hn. apply from_dict_to_dict.
    by apply (proj1 (Forall_forall _ _) Hts).
Qed.

End Store.

Lemma save_load_round_trip_witness :
  Forall timestamped [milk; report] ∧
  @load_notes SampleClock (@save_notes [milk; report] fresh_world).2
  = (Return [milk; report], (@save_notes [milk; report] fresh_world).2).
Proof.
  assert (Forall timestamped [milk; report]) as Hts.
  { apply (bool_decide_unpack _). vm_compute. reflexivity. }
  split; [exact Hts |].
  exact (proj1 (@save_load_round_trip SampleClock [milk; report] fresh_world Hts)).
Defined.

(** ** Loading a damaged file *)

Section Damaged.
Context `{Clock}.

Lemma load_notes_garbled t :
  (load_notes (mkWorld (Some Garbled) t)).1 = Return [].
Proof. reflexivity. Qed.

Lemma load_notes_missing_key t :
  (load_notes (mkWorld (Some (Document (JArr [untitled_record]))) t)).1
  = Return [].
Proof. reflexivity. Qed.

(** [from_dict] takes the timestamps of a record as they are: the order of
    [created_at] and [updated_at] is kept by the operations, not checked
    on load. *)
Lemma from_dict_backdated_record w :
  from_dict backdated_record w =
  (Return (mkNote 1 "t" "c" WORK LOW [] ACTIVE
             "2025-01-01T00:00:00" "2020-01-01T00:00:00"), w).
Proof. reflexivity. Qed.

Lemma from_dict_each_unrecognized_category ns m i ti c v rest w :
  Forall timestamped ns →
  m !! "id" = Some i → m !! "title" = Some ti → m !! "content" = Some c →
  m !! "category" = Some v → NoteCategory_call v = Raise ValueError →
  from_dict_each ((to_dict <$> ns) ++ JObj m :: rest) w = (Raise ValueError, w).
Proof.
  intros Hts Hi Hti Hc Hv Hcall.
  induction Hts as [|n ns Hn _ IH].
  - cbn [app from_dict_each fmap list_fmap]. unfold from_dict, subscript.
    by rewrite Hi, Hti, Hc, Hv, !bind_lift_return, Hcall.
  - rewrite fmap_cons. cbn [app from_dict_each].
    rewrite from_dict_to_dict by done. by rewrite bind_run, IH.
Qed.

(** Every file in which the first record that fails names a category that
    is no member makes the load raise. *)
Lemma load_notes_unrecognized_category ns m i ti c v rest t :
  Forall timestamped ns →
  m !! "id" = Some i → m !! "title" = Some ti → m !! "content" = Some c →
  m !! "category" = Some v → NoteCategory_call v = Raise ValueError →
  (load_notes
     (mkWorld (Some (Document (JArr ((to_dict <$> ns) ++ JObj m :: rest)))) t)).1
  = Raise ValueError.
Proof.
  intros Hts Hi Hti Hc Hv Hcall.
  unfold load_notes, try_except. rewrite bind_run.
  cbn [_ensure_file_exists file]. rewrite bind_run. cbn [json_load file].
  cbn [py_iter]. rewrite bind_lift_return.
  by rewrite (from_dict_each_unrecognized_category ns m i ti c v rest).
Qed.

(** C1, at the failing input.  A record whose category is no member of
    the enumeration makes [load_notes] raise [ValueError]: the handler
    names [JSONDecodeError] and [KeyError] only, so the load does not
    return the empty sequence. *)
Theorem load_notes_unrecognized_category_raises :
  (load_notes bogus_category_world).1 = Raise ValueError.
Proof. reflexivity. Qed.

End Damaged.


(** ** Adding notes *)

Lemma py_max_spec x l :
  py_max x l ∈ x :: l ∧ ∀ y, y ∈ x :: l → y ≤ py_max x l.
Proof.
  unfold py_max. revert x.
  induction l as [|z l IH]; intros x; simpl.
  - split; [left|]. intros y Hy. apply list_elem_of_singleton in Hy. lia.
  - destruct (Z.ltb_spec x z) as [Hlt | Hge].
    + destruct (IH z) as [Hin Hmax]. split; [by right|].
      assert (z ≤ foldl (λ m y, if m <? y then y else m) z l) as Hz
        by (apply Hmax; left).
      intros y Hy. apply elem_of_cons in Hy as [-> | Hy]; [lia | by apply Hmax].
    + destruct (IH x) as [Hin Hmax]. split.
      * apply elem_of_cons in Hin as [-> | Hin]; [left | by do 2 right].
      * assert (x ≤ foldl (λ m y, if m <? y then y else m) x l) as Hx
          by (apply Hmax; left).
        intros y Hy. apply elem_of_cons in Hy as [-> | Hy]; [done|].
        apply elem_of_cons in Hy as [-> | Hy]; [lia|].
        apply Hmax. by right.
Qed.

Lemma next_id_of_spec ns : one_above_max ns (next_id_of ns).
Proof.
  destruct ns as [|n ns]; [by left | right].
  unfold next_id_of, ids. rewrite fmap_cons.
  destruct (py_max_spec (id n) (id <$> ns)) as [Hin Hmax].
  replace (py_max (id n) (id <$> ns) + 1 - 1) with (py_max (id n) (id <$> ns))
    by lia.
  done.
Qed.

Lemma next_id_of_fresh ns : next_id_of ns ∉ ids ns.
Proof.
  destruct (next_id_of_spec ns) as [[-> _] | [_ Hmax]].
  - unfold ids. set_solver.
  - intros Hin. specialize (Hmax _ Hin). lia.
Qed.

Lemma NoDup_ids_snoc ns n :
  NoDup (ids ns) → id n = next_id_of ns → NoDup (ids (ns ++ [n])).
Proof.
  intros Hnd Hid. unfold ids. rewrite fmap_app. simpl.
  apply NoDup_app. split; [done|]. split.
  - intros x Hx Hx'. apply list_elem_of_singleton in Hx'. subst x.
    rewrite Hid in Hx. by apply (next_id_of_fresh ns).
  - apply NoDup_singleton.
Qed.

Section Adding.
Context `{Clock} `{StrLower} `{FromIsoformat}.

(** [Note(...)] without timestamps reads the clock twice. *)
Lemma Note_init_new i t c cat pri tg st w :
  Note_init (JInt i) (JStr t) (JStr c) cat pri (str_list tg) st JNull JNull w =
  (Return (mkNote i t c cat pri tg st (now (ticks w)) (now (S (ticks w)))),
   mkWorld (file w) (S (S (ticks w)))).
Proof.
  unfold Note_init. rewrite bind_run, py_or_tags.
  unfold py_or, isoformat_now, lift, typed_note. cbn [truthy].
  rewrite !bind_run. cbn [read_clock ret ticks file as_int as_str].
  rewrite !bind_run. cbn [read_clock ret ticks file as_int as_str].
  by rewrite as_str_list_str_list.
Qed.

Lemma get_next_id_holds w ns :
  holds w ns →
  get_next_id w =
  (Return (next_id_of ns),
   mkWorld (Some (Document (JArr (to_dict <$> ns)))) (ticks w)).
Proof.
  intros Hw. unfold get_next_id.
  by rewrite bind_run, (load_notes_holds w ns Hw).
Qed.

Lemma add_note_run w ns t c cat pri tg :
  holds w ns →
  add_note t c cat pri tg w =
  match NoteCategory_call (JStr (lower cat)),
        NotePriority_call (JStr (lower pri)) with
  | Return ncat, Return npri =>
      (Return (Added (next_id_of ns) t),
       mkWorld
         (Some (Document
            (JArr (to_dict <$> ns ++ [added_note ns t c ncat npri tg w]))))
         (S (S (ticks w))))
  | Return _, _ =>
      (Return (BadPriority pri),
       mkWorld (Some (Document (JArr (to_dict <$> ns)))) (ticks w))
  | _, _ =>
      (Return (BadCategory cat),
       mkWorld (Some (Document (JArr (to_dict <$> ns)))) (ticks w))
  end.
Proof.
  intros Hw. unfold add_note.
  rewrite bind_run, (load_notes_holds w ns Hw).
  destruct (NoteCategory_call (JStr (lower cat))) as [ncat| |]; try done.
  destruct (NotePriority_call (JStr (lower pri))) as [npri| |]; try done.
  rewrite bind_run, (get_next_id_holds _ ns)
    by (apply holds_saved, Hw).
  rewrite bind_run, Note_init_new. cbn [ticks file].
  rewrite bind_run, save_notes_run. done.
Qed.

Lemma timestamped_added ns t c cat pri tg w :
  timestamped (added_note ns t c cat pri tg w).
Proof. split; apply now_nonempty. Qed.

Lemma next_id_of_ids ns ns' : ids ns = ids ns' → next_id_of ns = next_id_of ns'.
Proof.
  unfold ids. destruct ns as [|n ns], ns' as [|n' ns']; try done.
  rewrite !fmap_cons. intros [= Hn Hns]. simpl. by rewrite Hn, Hns.
Qed.

Lemma contents_loaded w ns w1 :
  load_notes w = (Return ns, w1) → contents w1 = contents w.
Proof.
  intros Hl. pose proof (load_notes_file w) as Hf. rewrite Hl in Hf.
  simpl in Hf. unfold contents at 1. by rewrite Hf.
Qed.

(** The second load of an Add, the one of [get_next_id], gives the ids of
    the first. *)
Lemma get_next_id_loaded w ns w1 :
  load_notes w = (Return ns, w1) →
  get_next_id w1 = (Return (next_id_of ns), (load_notes w1).2).
Proof.
  intros Hl. unfold get_next_id. rewrite bind_run.
  pose proof (load_notes_same_ids w w1) as Hsame.
  rewrite (contents_loaded w ns w1 Hl), Hl in Hsame.
  specialize (Hsame eq_refl).
  destruct (load_notes w1) as [[ns'|e|] w2]; simpl in Hsame; try done.
  by rewrite (next_id_of_ids ns ns' Hsame).
Qed.

Lemma add_note_loaded w ns w1 t c cat pri tg :
  load_notes w = (Return ns, w1) →
  add_note t c cat pri tg w =
  match NoteCategory_call (JStr (lower cat)),
        NotePriority_call (JStr (lower pri)) with
  | Return ncat, Return npri =>
      (Return (Added (next_id_of ns) t),
       saved (ns ++ [added_note ns t c ncat npri tg (load_notes w1).2])
         (S (S (ticks (load_notes w1).2))))
  | Return _, _ => (Return (BadPriority pri), w1)
  | _, _ => (Return (BadCategory cat), w1)
  end.
Proof.
  intros Hl. unfold add_note. rewrite bind_run, Hl.
  destruct (NoteCategory_call (JStr (lower cat))) as [ncat| |]; try done.
  destruct (NotePriority_call (JStr (lower pri))) as [npri| |]; try done.
  rewrite bind_run, (get_next_id_loaded w ns w1 Hl).
  rewrite bind_run, Note_init_new. cbn [ticks file].
  by rewrite bind_run, save_notes_run.
Qed.

(** After a sequence of Adds, from a store that loads with distinct ids,
    the store loads with distinct ids. *)
Lemma after_adds_loads adds w0 ns0 :
  (load_notes w0).1 = Return ns0 → NoDup (ids ns0) → Forall is_add adds →
  ∃ ns, (load_notes (after adds w0)).1 = Return ns ∧ NoDup (ids ns).
Proof.
  intros Hl Hnd Hadds. revert w0 ns0 Hl Hnd.
  induction Hadds as [|o adds Ho _ IH]; intros w0 ns0 Hl Hnd.
  - by exists ns0.
  - destruct o as [t c cat pri tg| | | | | |]; try done.
    unfold after. cbn [foldl run]. fold (after adds).
    destruct (load_notes w0) as [o w1] eqn:Hw0. simpl in Hl. subst o.
    rewrite (add_note_loaded w0 ns0 w1) by done.
    assert (∃ ns1, (load_notes w1).1 = Return ns1 ∧ NoDup (ids ns1))
      as (ns1 & Hl1 & Hnd1).
    { pose proof (load_notes_same_ids w0 w1) as Hsame.
      rewrite (contents_loaded w0 ns0 w1 Hw0), Hw0 in Hsame.
      specialize (Hsame eq_refl).
      destruct (load_notes w1) as [[ns1|e|] w2]; simpl in Hsame; try done.
      exists ns1. split; [done | by rewrite <- Hsame]. }
    destruct (NoteCategory_call (JStr (lower cat))) as [ncat| |];
      [destruct (NotePriority_call (JStr (lower pri))) as [npri| |] |..].
    2-5: by apply (IH w1 ns1).
    cbn [snd].
    apply (IH _ (ns0 ++ [added_note ns0 t c ncat npri tg (load_notes w1).2])).
    + unfold saved. rewrite load_notes_saved; [done|].
      apply Forall_app. split; [by eapply load_notes_timestamped|].
      apply Forall_singleton, timestamped_added.
    + by apply NoDup_ids_snoc.
Qed.

(** C2.  After any sequence of Adds from a store that loads with distinct
    ids, the next Add returns; when it is accepted, the id it assigns is
    one greater than the greatest id of the collection loaded just before
    it, or 1 when that collection is empty, the collection loaded
    afterwards is that one with the new note appended, and its ids are
    again distinct. *)
Theorem add_note_assigns_next_id (w0 : World) (ns0 : list Note)
    (adds : list op) (t c cat pri : string) (tg : option (list string)) :
  (load_notes w0).1 = Return ns0 → NoDup (ids ns0) → Forall is_add adds →
  ∃ ns, (load_notes (after adds w0)).1 = Return ns ∧ NoDup (ids ns) ∧
    (∃ r, (add_note t c cat pri tg (after adds w0)).1 = Return r) ∧
    (∀ ncat npri,
       NoteCategory_call (JStr (lower cat)) = Return ncat →
       NotePriority_call (JStr (lower pri)) = Return npri →
       ∃ i, (add_note t c cat pri tg (after adds w0)).1
            = Return (Added i t)) ∧
    (∀ i t',
       (add_note t c cat pri tg (after adds w0)).1 = Return (Added i t') →
       one_above_max ns i ∧
       ∃ n, id n = i ∧
            (load_notes (add_note t c cat pri tg (after adds w0)).2).1
            = Return (ns ++ [n]) ∧
            NoDup (ids (ns ++ [n]))).
Proof.
  intros Hl0 Hnd0 Hadds.
  destruct (after_adds_loads adds w0 ns0 Hl0 Hnd0 Hadds) as (ns & Hl & Hnd).
  exists ns. split; [done|]. split; [done|].
  destruct (load_notes (after adds w0)) as [o w1] eqn:Hw. simpl in Hl. subst o.
  rewrite (add_note_loaded _ ns w1) by done.
  destruct (NoteCategory_call (JStr (lower cat))) as [ncat| |];
    [destruct (NotePriority_call (JStr (lower pri))) as [npri| |] |..];
    (split; [by eexists|]); (split; [intros ?? ??; by simplify_eq; eexists|]);
    intros i t' Hr; simplify_eq/=.
  split; [apply next_id_of_spec|].
  exists (added_note ns t' c ncat npri tg (load_notes w1).2).
  split; [reflexivity|]. split.
  - unfold saved. rewrite load_notes_saved; [done|].
    apply Forall_app. split; [by eapply load_notes_timestamped|].
    apply Forall_singleton, timestamped_added.
  - by apply NoDup_ids_snoc.
Qed.

End Adding.

Lemma add_note_assigns_next_id_witness :
  ∃ ns, (@load_notes SampleClock
           (@after SampleClock AsciiLower IsoShape
              [Add "Buy milk" "2% milk, eggs" "shopping" "low"
                 (Some ["errand"]);
               Add "Call" "the bank" "Work" "HIGH" None] fresh_world)).1
        = Return ns
        ∧ NoDup (ids ns).
Proof.
  destruct (@add_note_assigns_next_id SampleClock AsciiLower IsoShape fresh_world []
              [Add "Buy milk" "2% milk, eggs" "shopping" "low"
                 (Some ["errand"]);
               Add "Call" "the bank" "Work" "HIGH" None]
              "Tea" "green" "shopping" "medium" None)
    as (ns & Hns & Hnd & _).
  - reflexivity.
  - constructor.
  - repeat constructor.
  - exists ns. split; assumption.
Defined.

(** ** Finding a note by id *)

Lemma find_note_Some i ns before n after_ :
  find_note i ns = Some (before, n, after_) →
  ns = before ++ n :: after_ ∧ id n = i ∧ i ∉ ids before.
Proof.
  revert before. induction ns as [|m ns IH]; intros before Hf; [done|].
  simpl in Hf. destruct (Z.eqb_spec (id m) i) as [Heq | Hne].
  - simplify_eq. split; [done|]. split; [done|]. unfold ids. set_solver.
  - destruct (find_note i ns) as [[[b x] a]|] eqn:E; [|done].
    simplify_eq. destruct (IH b eq_refl) as (-> & Hid & Hnotin).
    split; [done|]. split; [done|].
    unfold ids in *. rewrite fmap_cons. intros Hin.
    apply elem_of_cons in Hin as [Hin | Hin]; [by subst | done].
Qed.

Lemma find_note_None i ns : find_note i ns = None ↔ i ∉ ids ns.
Proof.
  unfold ids. induction ns as [|m ns IH]; simpl.
  - split; [intros _; apply not_elem_of_nil | done].
  - destruct (Z.eqb_spec (id m) i) as [Heq | Hne].
    + split; [done|]. intros Hn. exfalso. apply Hn. subst. left.
    + destruct (find_note i ns) as [[[b x] a]|].
      * split; [done|]. intros Hn. exfalso.
        assert (i ∉ id <$> ns) as Hns by (intros Hin; apply Hn; by right).
        by apply IH in Hns.
      * split; [|done]. intros _ Hin.
        apply elem_of_cons in Hin as [Hin | Hin]; [by subst|].
        by apply (proj1 IH).
Qed.

Lemma find_note_first before n after_ :
  id n ∉ ids before →
  find_note (id n) (before ++ n :: after_) = Some (before, n, after_).
Proof.
  unfold ids. induction before as [|m before IH]; intros Hnotin; simpl.
  - by rewrite Z.eqb_refl.
  - rewrite fmap_cons in Hnotin. apply not_elem_of_cons in Hnotin as [Hne Hnotin].
    destruct (Z.eqb_spec (id m) (id n)) as [Heq | _]; [done|].
    by rewrite IH.
Qed.

(** ** Changing and removing notes *)

Section Changing.
Context `{Clock} `{StrLower}.

Lemma load_notes_holds_saved w ns :
  holds w ns → load_notes w = (Return ns, saved ns (ticks w)).
Proof. apply load_notes_holds. Qed.

Lemma delete_note_run w ns i :
  holds w ns →
  delete_note i w =
  match find_note i ns with
  | Some (before, n, after_) =>
      (Return (Deleted i (title n)), saved (before ++ after_) (ticks w))
  | None => (Return (NotFound i), saved ns (ticks w))
  end.
Proof.
  intros Hw. unfold delete_note.
  rewrite bind_run, (load_notes_holds_saved w ns Hw).
  destruct (find_note i ns) as [[[b n] a]|]; [|done].
  by rewrite bind_run, save_notes_run.
Qed.

Lemma archive_note_run w ns i :
  holds w ns →
  archive_note i w =
  match find_note i ns with
  | Some (before, n, after_) =>
      match status n with
      | ARCHIVED => (Return (AlreadyArchived i), saved ns (ticks w))
      | ACTIVE =>
          (Return (Archived i (title n)),
           saved (before ++
                  set_updated_at (now (ticks w)) (set_status ARCHIVED n)
                  :: after_)
             (S (ticks w)))
      end
  | None => (Return (NotFound i), saved ns (ticks w))
  end.
Proof.
  intros Hw. unfold archive_note.
  rewrite bind_run, (load_notes_holds_saved w ns Hw).
  destruct (find_note i ns) as [[[b n] a]|]; [|done].
  destruct (status n); [|done].
  rewrite bind_run. cbn [read_clock saved ticks file].
  by rewrite bind_run, save_notes_run.
Qed.

Lemma edit_note_loaded w ns w1 i t c cat pri tg :
  load_notes w = (Return ns, w1) →
  edit_note i t c cat pri tg w =
  match find_note i ns with
  | Some (before, n, after_) =>
      match validated cat NoteCategory_call BadCategory with
      | inl e => (Return e, w1)
      | inr ncat =>
      match validated pri NotePriority_call BadPriority with
      | inl e => (Return e, w1)
      | inr npri =>
          let n' := set_updated_at (now (ticks w1))
                      (assigned t c ncat npri tg n) in
          (Return (Updated i (title n')),
           saved (before ++ n' :: after_) (S (ticks w1)))
      end end
  | None => (Return (NotFound i), w1)
  end.
Proof.
  intros Hl. unfold edit_note. rewrite bind_run, Hl.
  destruct (find_note i ns) as [[[b n] a]|]; [|done].
  destruct (validated cat _ _) as [e | ncat]; [done|].
  destruct (validated pri _ _) as [e | npri]; [done|].
  unfold update. rewrite !bind_run. cbn [read_clock saved ticks file ret].
  by rewrite bind_run, save_notes_run.
Qed.

Lemma edit_note_run w ns i t c cat pri tg :
  holds w ns →
  edit_note i t c cat pri tg w =
  match find_note i ns with
  | Some (before, n, after_) =>
      match validated cat NoteCategory_call BadCategory with
      | inl e => (Return e, saved ns (ticks w))
      | inr ncat =>
      match validated pri NotePriority_call BadPriority with
      | inl e => (Return e, saved ns (ticks w))
      | inr npri =>
          let n' := set_updated_at (now (ticks w))
                      (assigned t c ncat npri tg n) in
          (Return (Updated i (title n')),
           saved (before ++ n' :: after_) (S (ticks w)))
      end end
  | None => (Return (NotFound i), saved ns (ticks w))
  end.
Proof.
  intros Hw.
  by rewrite (edit_note_loaded w ns _ i t c cat pri tg
                (load_notes_holds_saved w ns Hw)).
Qed.

Lemma holds_replace before n n' after_ :
  Forall timestamped (before ++ n :: after_) → timestamped n' →
  Forall timestamped (before ++ n' :: after_).
Proof.
  rewrite !Forall_app, !Forall_cons. tauto.
Qed.

Lemma holds_timestamped_middle w before n after_ :
  holds w (before ++ n :: after_) → timestamped n.
Proof.
  intros [Hts _]. rewrite Forall_app, Forall_cons in Hts. tauto.
Qed.

(** C4.  Edit of the first note with a given id, with no field supplied,
    returns the confirmation; the collection loaded afterwards is the one
    loaded before, with [updated_at] of that note set to the reading of
    the clock, every other field of it as before, and every other note as
    before.  When the clock has advanced, the previous [updated_at]
    being the ISO text of a time earlier than the time of the reading,
    the new [updated_at] is strictly greater. *)
Theorem edit_note_without_fields (w w1 : World) (before : list Note)
    (n : Note) (after_ : list Note) :
  load_notes w = (Return (before ++ n :: after_), w1) →
  id n ∉ ids before →
  ∃ n',
    (edit_note (id n) None None None None None w).1
      = Return (Updated (id n) (title n)) ∧
    (load_notes (edit_note (id n) None None None None None w).2).1
      = Return (before ++ n' :: after_) ∧
    id n' = id n ∧ title n' = title n ∧ content n' = content n ∧
    category n' = category n ∧ priority n' = priority n ∧
    tags n' = tags n ∧ status n' = status n ∧
    created_at n' = created_at n ∧
    updated_at n' = now (ticks w1) ∧
    ∀ d, valid_datetime d → updated_at n = isoformat d →
         datetime_lt d (clock (ticks w1)) →
         str_lt (updated_at n) (updated_at n').
Proof.
  intros Hl Hfirst.
  exists (set_updated_at (now (ticks w1)) n).
  rewrite (edit_note_loaded w _ w1 _ _ _ _ _ _ Hl), find_note_first by done.
  cbn [validated supplied assigned assign fst snd].
  split; [done|]. split.
  - unfold saved. rewrite load_notes_saved; [done|].
    apply load_notes_timestamped in Hl.
    eapply holds_replace; [done|].
    rewrite Forall_app, Forall_cons in Hl. destruct Hl as (_ & [Hc _] & _).
    split; [done | apply now_nonempty].
  - repeat split. intros d Hd -> Hlt. by apply earlier_now.
Qed.

End Changing.

(** ** Texts: substrings and order *)

Lemma prefix_spec t s : String.prefix t s = true ↔ ∃ b, s = t +:+ b.
Proof.
  revert s. induction t as [|c t IH]; intros [|d s]; simpl.
  - split; [intros _; by exists EmptyString | done].
  - split; [intros _; by eexists | done].
  - split; [done | by intros [b ?]].
  - destruct (Ascii.ascii_dec c d) as [-> | Hne].
    + rewrite IH. split; intros [b Hb]; exists b;
        rewrite append_cons in *; congruence.
    + split; [done | intros [b Hb]; rewrite append_cons in Hb; congruence].
Qed.

Lemma str_in_spec t s : str_in t s = true ↔ ∃ a b, s = a +:+ t +:+ b.
Proof.
  induction s as [|d s IH]; cbn [str_in].
  - rewrite orb_false_r, prefix_spec. split.
    + intros [b Hb]. by exists EmptyString, b.
    + intros ([|? a] & b & Hab); [by exists b | done].
  - rewrite orb_true_iff, prefix_spec, IH. split.
    + intros [[b Hb] | (a & b & Hab)].
      * by exists EmptyString, b.
      * exists (String d a), b. by rewrite append_cons, Hab.
    + intros ([|c a] & b & Hab).
      * left. by exists b.
      * right. exists a, b. rewrite append_cons in Hab. congruence.
Qed.

Lemma compare_refl s : String.compare s s = Eq.
Proof.
  induction s as [|c s IH]; simpl; [done|].
  unfold Ascii.compare. by rewrite N.compare_refl.
Qed.

Lemma ltb_irrefl s : String.ltb s s = false.
Proof. unfold String.ltb. by rewrite compare_refl. Qed.

Lemma ltb_le a b : String.ltb a b = true → String.le a b.
Proof.
  unfold String.ltb, String.le, String.leb.
  by destruct (String.compare a b).
Qed.

Lemma ltb_false_le a b : String.ltb a b = false → String.le b a.
Proof.
  unfold String.ltb, String.le, String.leb.
  rewrite (String.compare_antisym b a).
  by destruct (String.compare a b).
Qed.

(** ** The sort *)

Lemma insert_desc_perm x l : insert_desc x l ≡ₚ x :: l.
Proof.
  induction l as [|y l IH]; simpl; [done|].
  destruct (String.ltb _ _); [|done].
  rewrite IH. apply Permutation_swap.
Qed.

Lemma sort_created_at_reverse_perm l : sort_created_at_reverse l ≡ₚ l.
Proof.
  induction l as [|x l IH]; simpl; [done|].
  by rewrite insert_desc_perm, IH.
Qed.

Lemma insert_desc_sorted x l :
  Sorted (fun a b => String.le (created_at b) (created_at a)) l →
  Sorted (fun a b => String.le (created_at b) (created_at a)) (insert_desc x l).
Proof.
  induction 1 as [|y l Hl IH Hhd]; simpl; [by repeat constructor|].
  destruct (String.ltb (created_at x) (created_at y)) eqn:E.
  - constructor; [done|].
    destruct l as [|z l]; simpl.
    + constructor. by apply ltb_le.
    + destruct (String.ltb (created_at x) (created_at z)).
      * constructor. by inversion Hhd.
      * constructor. by apply ltb_le.
  - constructor; [by constructor|]. constructor. by apply ltb_false_le.
Qed.

Lemma sort_created_at_reverse_newest_first l :
  newest_first (sort_created_at_reverse l).
Proof.
  apply Sorted_StronglySorted.
  - intros a b c Hab Hbc. by etrans.
  - induction l as [|x l IH]; simpl; [constructor|].
    by apply insert_desc_sorted.
Qed.

Lemma insert_desc_stable ts x l :
  filter (fun n => created_at n = ts) (insert_desc x l)
  = filter (fun n => created_at n = ts) (x :: l).
Proof.
  induction l as [|y l IH]; simpl; [done|].
  destruct (String.ltb (created_at x) (created_at y)) eqn:E; [|done].
  rewrite filter_cons, IH, !filter_cons.
  destruct (decide (created_at y = ts)) as [Hy | Hy]; [|done].
  destruct (decide (created_at x = ts)) as [Hx | Hx]; [|done].
  rewrite Hx, Hy, ltb_irrefl in E. done.
Qed.

Lemma sort_created_at_reverse_stable ts l :
  filter (fun n => created_at n = ts) (sort_created_at_reverse l)
  = filter (fun n => created_at n = ts) l.
Proof.
  induction l as [|x l IH]; simpl; [done|].
  by rewrite insert_desc_stable, !filter_cons, IH.
Qed.

(** The stable descending sort is determined by its contract: two lists
    with the newest first that show the notes of every [created_at] in
    the same order are the same list.  So whatever algorithm [list.sort]
    runs, its result is [sort_created_at_reverse]. *)
Lemma newest_first_stable_unique l1 l2 :
  newest_first l1 → newest_first l2 →
  (∀ ts, filter (fun n => created_at n = ts) l1
         = filter (fun n => created_at n = ts) l2) →
  l1 = l2.
Proof.
  intros H1. revert l2.
  induction H1 as [|a l1 Hl1 IH Ha]; intros l2 H2 Hsame.
  - destruct l2 as [|b l2]; [done|].
    specialize (Hsame (created_at b)). rewrite filter_cons in Hsame.
    by destruct (decide (created_at b = created_at b)).
  - destruct H2 as [|b l2 Hl2 Hb].
    { specialize (Hsame (created_at a)). rewrite filter_cons in Hsame.
      by destruct (decide (created_at a = created_at a)). }
    assert (String.le (created_at a) (created_at b)) as Hab.
    { assert (a ∈ filter (fun n => created_at n = created_at a) (b :: l2))
        as Hin by (rewrite <- Hsame; apply list_elem_of_filter; split;
                   [done | left]).
      apply list_elem_of_filter in Hin as [_ Hin].
      apply elem_of_cons in Hin as [-> | Hin]; [done|].
      by apply (proj1 (Forall_forall _ _) Hb). }
    assert (String.le (created_at b) (created_at a)) as Hba.
    { assert (b ∈ filter (fun n => created_at n = created_at b) (a :: l1))
        as Hin by (rewrite Hsame; apply list_elem_of_filter; split;
                   [done | left]).
      apply list_elem_of_filter in Hin as [_ Hin].
      apply elem_of_cons in Hin as [-> | Hin]; [done|].
      by apply (proj1 (Forall_forall _ _) Ha). }
    assert (created_at a = created_at b) as Hk by by apply (anti_symm String.le).
    pose proof (Hsame (created_at a)) as Hhead.
    rewrite !filter_cons in Hhead.
    destruct (decide (created_at a = created_at a)); [|done].
    destruct (decide (created_at b = created_at a)); [|congruence].
    injection Hhead as <- Htail. f_equal.
    apply IH; [done|]. intros ts.
    destruct (decide (ts = created_at a)) as [-> | Hne]; [done|].
    specialize (Hsame ts). rewrite !filter_cons in Hsame.
    destruct (decide (created_at a = ts)); [congruence | done].
Qed.

Lemma sort_created_at_reverse_unique l l' :
  newest_first l' →
  (∀ ts, filter (fun n => created_at n = ts) l'
         = filter (fun n => created_at n = ts) l) →
  l' = sort_created_at_reverse l.
Proof.
  intros Hs Hst. apply newest_first_stable_unique; [done| |].
  - apply sort_created_at_reverse_newest_first.
  - intros ts. by rewrite sort_created_at_reverse_stable.
Qed.


(** ** Listing and searching *)

Section Rendering.
Context `{FromIsoformat}.

#[global] Instance renders_dec n : Decision (renders n).
Proof. unfold renders. apply _. Defined.

Lemma str_each_renders l : Forall renders l → str_each l = Return tt.
Proof.
  induction 1 as [|n l Hn _ IH]; [done|].
  cbn [str_each]. unfold Note_str. by rewrite Hn.
Qed.

Lemma str_each_raises l n :
  n ∈ l → ¬ renders n → str_each l = Raise ValueError.
Proof.
  intros Hin Hn. induction l as [|m l IH]; [by apply elem_of_nil in Hin|].
  cbn [str_each]. unfold Note_str.
  destruct (fromisoformat_ok (created_at m)) eqn:Hm; [|done].
  apply elem_of_cons in Hin as [-> | Hin]; [done | by apply IH].
Qed.

Lemma str_each_Return l u : str_each l = Return u → Forall renders l.
Proof.
  induction l as [|m l IH]; [constructor|].
  cbn [str_each]. unfold Note_str.
  destruct (fromisoformat_ok (created_at m)) eqn:Hm; [|done].
  intros Hl. constructor; [done | by apply IH].
Qed.

Lemma rendered_renders r : Forall renders (notes_of r) → rendered r = Return r.
Proof. intros Hr. unfold rendered. by rewrite str_each_renders. Qed.

Lemma rendered_raises r n :
  n ∈ notes_of r → ¬ renders n → rendered r = Raise ValueError.
Proof. intros Hin Hn. unfold rendered. by rewrite (str_each_raises _ n). Qed.

Lemma rendered_Return r0 r :
  rendered r0 = Return r → r = r0 ∧ Forall renders (notes_of r0).
Proof.
  unfold rendered. destruct (str_each (notes_of r0)) as [u| |] eqn:Hs; [|done..].
  intros [= <-]. split; [done | by eapply str_each_Return].
Qed.

Lemma listed_Return r : listed (Return r) = notes_of r.
Proof. by destruct r. Qed.

End Rendering.

Section Queries.
Context `{Clock} `{StrLower} `{FromIsoformat}.

Lemma list_notes_reply w ns cat pri st sc :
  (load_notes w).1 = Return ns →
  (list_notes cat pri st sc w).1 = rendered (list_reply cat pri st sc ns).
Proof.
  intros Hl. unfold list_notes. rewrite bind_run.
  destruct (load_notes w) as [o w1]. simpl in Hl. by subst o.
Qed.

Lemma search_notes_reply w ns term scope :
  (load_notes w).1 = Return ns →
  (search_notes term scope w).1 = rendered (search_reply term scope ns).
Proof.
  intros Hl. unfold search_notes. rewrite bind_run.
  destruct (load_notes w) as [o w1]. simpl in Hl. by subst o.
Qed.

Lemma list_notes_loaded w cat pri st sc r :
  (list_notes cat pri st sc w).1 = Return r →
  ∃ ns, (load_notes w).1 = Return ns ∧ r = list_reply cat pri st sc ns.
Proof.
  unfold list_notes. rewrite bind_run.
  destruct (load_notes w) as [[ns|e|] w1]; simpl; [|done..].
  intros [-> _]%rendered_Return. by exists ns.
Qed.

Lemma search_notes_loaded w term scope r :
  (search_notes term scope w).1 = Return r →
  ∃ ns, (load_notes w).1 = Return ns ∧ r = search_reply term scope ns.
Proof.
  unfold search_notes. rewrite bind_run.
  destruct (load_notes w) as [[ns|e|] w1]; simpl; [|done..].
  intros [-> _]%rendered_Return. by exists ns.
Qed.

Lemma filter_by_sublist {E} `{EqDecision E} arg (call : json → outcome E)
    field bad l l' :
  filter_by arg call field bad l = inr l' → sublist l' l.
Proof.
  unfold filter_by. destruct (supplied arg) as [s|]; [|by intros [= <-]].
  destruct (call _); [|done..]. intros [= <-]. apply sublist_filter.
Qed.

(** The notes a listing shows are the sorted notes that pass the status
    filter, taken from notes that passed the other two. *)
Lemma list_reply_listing cat pri st sc ns l sc' :
  list_reply cat pri st sc ns = Listing l sc' →
  ∃ by_priority filtered,
    sublist by_priority ns ∧
    filter_by st NoteStatus_call status BadStatus by_priority = inr filtered ∧
    l = sort_created_at_reverse filtered.
Proof.
  unfold list_reply. destruct ns as [|n0 ns0]; [done|].
  destruct (filter_by cat _ _ _ _) as [e | l1] eqn:E1; [intros ->; revert E1|].
  { unfold filter_by. destruct (supplied cat); [|done]. by destruct (NoteCategory_call _). }
  destruct (filter_by pri _ _ _ _) as [e | l2] eqn:E2; [intros ->; revert E2|].
  { unfold filter_by. destruct (supplied pri); [|done]. by destruct (NotePriority_call _). }
  destruct (filter_by st _ _ _ _) as [e | l3] eqn:E3; [intros ->; revert E3|].
  { unfold filter_by. destruct (supplied st); [|done]. by destruct (NoteStatus_call _). }
  destruct l3 as [|n3 l3]; [done|]. intros [= <- <-].
  exists l2, (n3 :: l3). split; [|done].
  etrans; by eapply filter_by_sublist.
Qed.

Lemma filter_by_status_value s l :
  filter_by (Some (status_value s)) NoteStatus_call status BadStatus l
  = inr (filter (fun n => status n = s) l).
Proof.
  unfold filter_by.
  assert (supplied (Some (status_value s)) = Some (status_value s)) as ->
    by by destruct s.
  rewrite lower_ascii by by destruct s.
  by destruct s.
Qed.

Lemma list_reply_status s cat pri sc ns l sc' n :
  list_reply cat pri (Some (status_value s)) sc ns = Listing l sc' →
  n ∈ l → status n = s.
Proof.
  intros Hr Hn.
  destruct (list_reply_listing _ _ _ _ _ _ _ Hr) as (l2 & l3 & _ & Hf & ->).
  rewrite filter_by_status_value in Hf. simplify_eq.
  rewrite sort_created_at_reverse_perm in Hn.
  by apply list_elem_of_filter in Hn as [? _].
Qed.

(** C6.  A listing asked with status "archived" shows archived notes
    only, so never an active one; a listing with the default arguments
    shows active notes only, so never an archived one. *)
Theorem list_notes_respects_status (w : World) :
  (∀ cat pri sc l sc' n,
     (list_notes cat pri (Some "archived") sc w).1 = Return (Listing l sc') →
     n ∈ l → status n = ARCHIVED ∧ status n ≠ ACTIVE) ∧
  (∀ l sc' n,
     (list_notes_default w).1 = Return (Listing l sc') →
     n ∈ l → status n = ACTIVE ∧ status n ≠ ARCHIVED).
Proof.
  split.
  - intros cat pri sc l sc' n Hr Hn.
    apply list_notes_loaded in Hr as (ns & _ & Hr). symmetry in Hr.
    by rewrite (list_reply_status ARCHIVED _ _ _ _ _ _ _ Hr Hn).
  - intros l sc' n Hr Hn. unfold list_notes_default in Hr.
    apply list_notes_loaded in Hr as (ns & _ & Hr). symmetry in Hr.
    by rewrite (list_reply_status ACTIVE _ _ _ _ _ _ _ Hr Hn).
Qed.


Lemma scope_in_spec scope a b :
  scope_in scope [a; b] = true ↔ scope = b ∨ scope = a.
Proof.
  unfold scope_in. rewrite bool_decide_eq_true, !elem_of_cons, elem_of_nil.
  tauto.
Qed.

Lemma str_in_lower term text :
  str_in (lower term) (lower text) = true ↔ ci_substring term text.
Proof. apply str_in_spec. Qed.

Lemma matches_spec term scope n :
  matches (lower term) scope n = true ↔
  ((scope = "title" ∨ scope = "all") ∧ ci_substring term (title n)) ∨
  ((scope = "content" ∨ scope = "all") ∧ ci_substring term (content n)) ∨
  ((scope = "tags" ∨ scope = "all") ∧
   ∃ tag, tag ∈ tags n ∧ ci_substring term tag).
Proof.
  assert (matches (lower term) scope n =
          scope_in scope ["all"; "title"]
            && str_in (lower term) (lower (title n))
          || scope_in scope ["all"; "content"]
               && str_in (lower term) (lower (content n))
          || scope_in scope ["all"; "tags"]
               && existsb (fun tag => str_in (lower term) (lower tag)) (tags n))
    as ->.
  { unfold matches.
    destruct (scope_in scope ["all"; "title"] && _); [done|].
    destruct (scope_in scope ["all"; "content"] && _); [done|].
    by destruct (scope_in scope ["all"; "tags"] && _). }
  rewrite !orb_true_iff, !andb_true_iff, !scope_in_spec, !str_in_lower.
  rewrite existsb_exists.
  assert ((∃ x, In x (tags n) ∧ str_in (lower term) (lower x) = true)
          ↔ ∃ tag, tag ∈ tags n ∧ ci_substring term tag) as ->; [|tauto].
  split; intros (tag & Hin & Hs); exists tag.
  - by rewrite list_elem_of_In, <- str_in_lower.
  - by rewrite <- list_elem_of_In, str_in_lower.
Qed.

Lemma search_reply_listed term scope ns n :
  n ∈ notes_of (search_reply term scope ns) ↔
  n ∈ ns ∧ matches (lower term) scope n = true.
Proof.
  unfold search_reply. destruct ns as [|n0 ns0].
  { simpl. split; [by intros ?%elem_of_nil | by intros [?%elem_of_nil _]]. }
  destruct (filter _ (n0 :: ns0)) as [|m found] eqn:E; cbn [notes_of].
  - split; [by intros ?%elem_of_nil|]. intros [Hn Hm].
    assert (n ∈ filter (λ n, matches (lower term) scope n) (n0 :: ns0)) as Hf
      by (apply list_elem_of_filter; split; [by apply Is_true_true | done]).
    rewrite E in Hf. by apply elem_of_nil in Hf.
  - rewrite <- E.
    rewrite sort_created_at_reverse_perm, list_elem_of_filter, Is_true_true.
    tauto.
Qed.


Lemma filter_none {A} (P : A → Prop) `{∀ x, Decision (P x)} (l : list A) :
  (∀ x, x ∈ l → ¬ P x) → filter P l = [].
Proof.
  induction l as [|x l IH]; intros Hno; [done|].
  rewrite filter_cons. destruct (decide (P x)) as [Hx | _].
  - exfalso. apply (Hno x); [left | done].
  - apply IH. intros y Hy. apply Hno. by right.
Qed.

(** C10.  On a collection that is not empty, a search under a scope that
    is none of title, content, tags and all matches no note and returns
    the reply of a search without matches, for the lowered term; the
    scope is not checked and no other reply comes of it. *)
Theorem search_notes_unknown_scope (w : World) (ns : list Note)
    (term scope : string) :
  (load_notes w).1 = Return ns → ns ≠ [] →
  scope ∉ ["title"; "content"; "tags"; "all"] →
  (search_notes term scope w).1 = Return (SearchNoMatch (lower term)) ∧
  ∀ n, n ∈ ns → matches (lower term) scope n = false.
Proof.
  intros Hl Hne Hscope.
  assert (∀ n, matches (lower term) scope n = false) as Hno.
  { intros n. apply not_true_is_false. rewrite matches_spec.
    rewrite !not_elem_of_cons in Hscope. tauto. }
  split; [|done].
  rewrite (search_notes_reply _ _ _ _ Hl). unfold search_reply.
  destruct ns as [|n0 ns0]; [done|].
  rewrite filter_none; [done|].
  intros n _ Hm. by rewrite Hno in Hm.
Qed.

End Queries.

(** ** Error replies leave the store alone *)

Section Errors.
Context `{Clock} `{StrLower} `{FromIsoformat}.

(** After its load, a command that answers with an error reply has
    written nothing. *)
Ltac after_load w :=
  rewrite bind_run;
  let Hf := fresh "Hfile" in
  pose proof (load_notes_file w) as Hf;
  destruct (load_notes w) as [[?ns|?e|] ?w1];
    cbn [fst snd] in Hf |- *; [|done..].

Lemma add_note_error w t c cat pri tg r :
  (add_note t c cat pri tg w).1 = Return r →
  validation_error r ∨ not_found r →
  file (add_note t c cat pri tg w).2 = Some (contents w).
Proof.
  unfold add_note. after_load w.
  destruct (NoteCategory_call (JStr (lower cat))) as [ncat| |];
    [|by cbn [ret fst snd]..].
  destruct (NotePriority_call (JStr (lower pri))) as [npri| |];
    [|by cbn [ret fst snd]..].
  rewrite bind_run. destruct (get_next_id w1) as [[i|e|] w2]; [|done..].
  rewrite bind_run.
  destruct (Note_init (JInt i) (JStr t) (JStr c) ncat npri
              (str_list (default [] tg)) ACTIVE JNull JNull w2)
    as [[n|e|] w3]; [|done..].
  rewrite bind_run, save_notes_run. cbn [ret fst snd]. intros [= <-]. by intros [[]|[]].
Qed.

Lemma list_notes_error w cat pri st sc :
  file (list_notes cat pri st sc w).2 = Some (contents w).
Proof.
  unfold list_notes. rewrite bind_run. pose proof (load_notes_file w) as Hf.
  by destruct (load_notes w) as [[ns|e|] w1].
Qed.

Lemma search_notes_error w term scope :
  file (search_notes term scope w).2 = Some (contents w).
Proof.
  unfold search_notes. rewrite bind_run. pose proof (load_notes_file w) as Hf.
  by destruct (load_notes w) as [[ns|e|] w1].
Qed.

Lemma delete_note_error w i r :
  (delete_note i w).1 = Return r →
  validation_error r ∨ not_found r →
  file (delete_note i w).2 = Some (contents w).
Proof.
  unfold delete_note. after_load w.
  destruct (find_note i ns) as [[[b n] a]|]; [|by cbn [ret fst snd]].
  rewrite bind_run, save_notes_run. cbn [ret fst snd]. intros [= <-]. by intros [[]|[]].
Qed.

Lemma archive_note_error w i r :
  (archive_note i w).1 = Return r →
  validation_error r ∨ not_found r →
  file (archive_note i w).2 = Some (contents w).
Proof.
  unfold archive_note. after_load w.
  destruct (find_note i ns) as [[[b n] a]|]; [|by cbn [ret fst snd]].
  destruct (status n).
  - rewrite bind_run. cbn [read_clock]. rewrite bind_run, save_notes_run.
    cbn [ret fst snd]. intros [= <-]. by intros [[]|[]].
  - cbn [ret fst snd]. intros [= <-]. by intros [[]|[]].
Qed.

Lemma edit_note_error w i t c cat pri tg r :
  (edit_note i t c cat pri tg w).1 = Return r →
  validation_error r ∨ not_found r →
  file (edit_note i t c cat pri tg w).2 = Some (contents w).
Proof.
  unfold edit_note. after_load w.
  destruct (find_note i ns) as [[[b n] a]|]; [|by cbn [ret fst snd]].
  destruct (validated cat NoteCategory_call BadCategory); [by cbn [ret fst snd]|].
  destruct (validated pri NotePriority_call BadPriority); [by cbn [ret fst snd]|].
  unfold update. rewrite !bind_run. cbn [read_clock ret].
  rewrite bind_run, save_notes_run.
  cbn [ret fst snd]. intros [= <-]. by intros [[]|[]].
Qed.

Lemma list_tags_no_error w r :
  (list_tags w).1 = Return r → ¬ (validation_error r ∨ not_found r).
Proof.
  unfold list_tags. rewrite bind_run.
  destruct (get_all_tags w) as [[[|tag tgs]|e|] w1]; cbn [fst snd ret];
    [| |done..].
  - intros [= <-]. by intros [[]|[]].
  - rewrite bind_run.
    destruct (count_tags (tag :: tgs) w1) as [[cs|e|] w2]; [|done..].
    cbn [fst snd ret]. intros [= <-]. by intros [[]|[]].
Qed.

(** C8.  When an operation answers with a validation error or with a
    not-found reply, the file is the one the operation's load read: an
    existing file is untouched, a missing one now holds the empty list,
    so the persisted collection is the one from before the call. *)
Theorem error_replies_write_nothing (o : op) (w : World) (r : reply) :
  (run o w).1 = Return r →
  validation_error r ∨ not_found r →
  contents (run o w).2 = contents w ∧
  ∀ c, file w = Some c → file (run o w).2 = Some c.
Proof.
  intros Hr Herr.
  assert (file (run o w).2 = Some (contents w)) as Hfile.
  { destruct o; simpl in *.
    - by eapply add_note_error.
    - apply list_notes_error.
    - apply search_notes_error.
    - by eapply delete_note_error.
    - by eapply archive_note_error.
    - by eapply edit_note_error.
    - by destruct (list_tags_no_error _ _ Hr). }
  split.
  - unfold contents at 1. by rewrite Hfile.
  - intros c Hc. rewrite Hfile. unfold contents. by rewrite Hc.
Qed.

End Errors.

(** ** Reachable stores *)

Section Reachable.
Context `{Clock} `{StrLower} `{FromIsoformat}.

Lemma stamped_before_mono t t' n :
  (t ≤ t')%nat → stamped_before t n → stamped_before t' n.
Proof. intros Ht (i & j & Hij & Hc & Hu). exists i, j. split; [lia | done]. Qed.

Lemma stamped_before_timestamped t n : stamped_before t n → timestamped n.
Proof.
  intros (i & j & _ & Hc & Hu). split.
  - rewrite Hc. apply now_nonempty.
  - rewrite Hu. apply now_nonempty.
Qed.

Lemma stamped_before_touch t n :
  stamped_before t n → stamped_before (S t) (set_updated_at (now t) n).
Proof.
  intros (i & j & Hij & Hc & Hu). exists i, t. split; [lia | done].
Qed.

Lemma list_notes_world w ns cat pri st sc :
  holds w ns → (list_notes cat pri st sc w).2 = saved ns (ticks w).
Proof.
  intros Hw. unfold list_notes.
  by rewrite bind_run, (load_notes_holds_saved w ns Hw).
Qed.

Lemma search_notes_world w ns term scope :
  holds w ns → (search_notes term scope w).2 = saved ns (ticks w).
Proof.
  intros Hw. unfold search_notes.
  by rewrite bind_run, (load_notes_holds_saved w ns Hw).
Qed.

Lemma count_tags_world tgs ns t :
  Forall timestamped ns → (count_tags tgs (saved ns t)).2 = saved ns t.
Proof.
  intros Hts. induction tgs as [|tag tgs IH]; [done|].
  cbn [count_tags]. rewrite bind_run.
  rewrite (load_notes_holds_saved (saved ns t) ns) by by apply holds_saved.
  cbn [saved ticks]. rewrite bind_run. fold (saved ns t).
  destruct (count_tags tgs (saved ns t)) as [[cs|e|] w2]; by simpl in *.
Qed.

Lemma list_tags_world w ns :
  holds w ns → (list_tags w).2 = saved ns (ticks w).
Proof.
  intros Hw. unfold list_tags, get_all_tags.
  rewrite !bind_run, (load_notes_holds_saved w ns Hw).
  cbn [ret]. destruct (sorted_texts _) as [|tag tgs]; [done|].
  rewrite bind_run.
  pose proof (count_tags_world (tag :: tgs) ns (ticks w) (proj1 Hw)) as Hc.
  destruct (count_tags (tag :: tgs) (saved ns (ticks w))) as [[cs|e|] w2];
    by simpl in *.
Qed.

Lemma settled_saved ns t t' :
  (t ≤ t')%nat → Forall (stamped_before t) ns → settled (saved ns t') ns.
Proof.
  intros Ht Hst.
  assert (Forall (stamped_before t') ns) as Hst'
    by (eapply Forall_impl; [done | intros n; by apply stamped_before_mono]).
  split; [|done]. apply holds_saved.
  eapply Forall_impl; [done | apply stamped_before_timestamped].
Qed.

Lemma run_settled o w ns :
  settled w ns → ∃ ns', settled (run o w).2 ns'.
Proof.
  intros [Hw Hst]. destruct o as [t c cat pri tg|cat pri st sc|term scope
                                  |i|i|i t c cat pri tg|]; simpl.
  - rewrite (add_note_run w ns) by done.
    destruct (NoteCategory_call (JStr (lower cat))) as [ncat| |];
      [destruct (NotePriority_call (JStr (lower pri))) as [npri| |] |..].
    2-5: exists ns; by apply (settled_saved _ (ticks w)).
    eexists. apply (settled_saved _ (S (S (ticks w)))); [done|].
    apply Forall_app. split.
    + eapply Forall_impl; [done | intros n; apply stamped_before_mono; lia].
    + apply Forall_singleton. exists (ticks w), (S (ticks w)).
      split; [lia | done].
  - rewrite (list_notes_world w ns) by done.
    exists ns. by apply (settled_saved _ (ticks w)).
  - rewrite (search_notes_world w ns) by done.
    exists ns. by apply (settled_saved _ (ticks w)).
  - rewrite (delete_note_run w ns) by done.
    destruct (find_note i ns) as [[[b n] a]|] eqn:E.
    + apply find_note_Some in E as (-> & _ & _).
      exists (b ++ a). apply (settled_saved _ (ticks w)); [done|].
      rewrite Forall_app, Forall_cons in Hst. rewrite Forall_app. tauto.
    + exists ns. by apply (settled_saved _ (ticks w)).
  - rewrite (archive_note_run w ns) by done.
    destruct (find_note i ns) as [[[b n] a]|] eqn:E.
    + apply find_note_Some in E as (-> & _ & _).
      destruct (status n).
      * eexists. apply (settled_saved _ (S (ticks w))); [done|].
        rewrite Forall_app, Forall_cons in Hst.
        destruct Hst as (Hb & Hn & Ha).
        rewrite Forall_app, Forall_cons. split; [|split].
        -- eapply Forall_impl; [done | intros m; apply stamped_before_mono; lia].
        -- by apply (stamped_before_touch _ (set_status ARCHIVED n)).
        -- eapply Forall_impl; [done | intros m; apply stamped_before_mono; lia].
      * eexists. by apply (settled_saved _ (ticks w)).
    + exists ns. by apply (settled_saved _ (ticks w)).
  - rewrite (edit_note_run w ns) by done.
    destruct (find_note i ns) as [[[b n] a]|] eqn:E.
    + apply find_note_Some in E as (-> & _ & _).
      destruct (validated cat NoteCategory_call BadCategory) as [e|ncat];
        [eexists; by apply (settled_saved _ (ticks w))|].
      destruct (validated pri NotePriority_call BadPriority) as [e|npri];
        [eexists; by apply (settled_saved _ (ticks w))|].
      eexists. apply (settled_saved _ (S (ticks w))); [done|].
      rewrite Forall_app, Forall_cons in Hst.
      destruct Hst as (Hb & Hn & Ha).
      rewrite Forall_app, Forall_cons. split; [|split].
      * eapply Forall_impl; [done | intros m; apply stamped_before_mono; lia].
      * apply (stamped_before_touch _ (assigned t c ncat npri tg n)).
        destruct Hn as (k & j & Hkj & Hc & Hu). exists k, j.
        split; [done|]. by destruct t, c, ncat, npri, tg.
      * eapply Forall_impl; [done | intros m; apply stamped_before_mono; lia].
    + exists ns. by apply (settled_saved _ (ticks w)).
  - rewrite (list_tags_world w ns) by done.
    exists ns. by apply (settled_saved _ (ticks w)).
Qed.

Lemma reachable_settled w : reachable w → ∃ ns, settled w ns.
Proof.
  induction 1 as [t | o w _ [ns Hns]].
  - exists []. split; [|constructor]. split; [constructor | by right].
  - by apply (run_settled o w ns).
Qed.

(** C9.  With a monotonic clock, every note of every collection a load
    rebuilds from a reachable store has [created_at] not above
    [updated_at] in the order of texts. *)
Theorem created_at_le_updated_at (w : World) (ns : list Note) (n : Note) :
  monotonic → reachable w → (load_notes w).1 = Return ns → n ∈ ns →
  String.le (created_at n) (updated_at n).
Proof.
  intros Hmono Hw Hl Hn.
  destruct (reachable_settled w Hw) as (ns' & Hh & Hst).
  rewrite (load_notes_holds_saved w ns' Hh) in Hl. simpl in Hl.
  injection Hl as <-.
  apply (proj1 (Forall_forall _ _) Hst) in Hn as (i & j & Hij & -> & ->).
  apply monotonic_now; [done | lia].
Qed.

End Reachable.

(** ** The sample clock *)

Lemma sample_clock_monotonic : @monotonic SampleClock.
Proof.
  intros i j Hij. unfold datetime_le, datetime_compare. simpl.
  change (N.min (N.of_nat i) 999999 ≤ N.min (N.of_nat j) 999999)%N. lia.
Qed.

(** ** The theorems at the sample store *)

Lemma load_two_notes_world :
  (@load_notes SampleClock two_notes_world).1 = Return [milk; report].
Proof. vm_compute. reflexivity. Qed.

Lemma edit_note_without_fields_witness :
  ∃ n',
    (@load_notes SampleClock
       (@edit_note SampleClock AsciiLower 2 None None None None None
          two_notes_world).2).1 = Return ([milk] ++ n' :: []) ∧
    str_lt (updated_at report) (updated_at n').
Proof.
  destruct (@edit_note_without_fields SampleClock AsciiLower two_notes_world
              two_notes_world [milk] report [])
    as (n' & _ & Hl & _ & _ & _ & _ & _ & _ & _ & _ & _ & Hlt).
  - vm_compute. reflexivity.
  - apply (bool_decide_unpack _). vm_compute. reflexivity.
  - exists n'. split; [assumption|].
    apply (Hlt (sample_clock 5)).
    + apply (@clock_valid SampleClock).
    + reflexivity.
    + vm_compute. reflexivity.
Defined.


Lemma list_notes_respects_status_witness :
  status report ≠ ACTIVE ∧ status milk ≠ ARCHIVED.
Proof.
  destruct (@list_notes_respects_status SampleClock AsciiLower IsoShape two_notes_world)
    as [Harchived Hdefault].
  split.
  - apply (Harchived None None false [report] false report).
    + vm_compute. reflexivity.
    + left.
  - apply (Hdefault [milk] false milk).
    + vm_compute. reflexivity.
    + left.
Defined.


Lemma error_replies_write_nothing_witness :
  contents (@run SampleClock AsciiLower IsoShape (Delete 999) two_notes_world).2
  = contents two_notes_world.
Proof.
  apply (proj1 (@error_replies_write_nothing SampleClock AsciiLower IsoShape
                  (Delete 999) two_notes_world (NotFound 999)
                  eq_refl (or_intror I))).
Defined.

Lemma created_at_le_updated_at_witness :
  String.le (created_at milk_archived) (updated_at milk_archived).
Proof.
  apply (@created_at_le_updated_at SampleClock AsciiLower IsoShape
           (@run SampleClock AsciiLower IsoShape (Archive 1)
              (@run SampleClock AsciiLower IsoShape
                 (Add "Buy milk" "2% milk, eggs" "shopping" "low"
                    (Some ["errand"])) fresh_world).2).2
           [milk_archived] milk_archived).
  - apply sample_clock_monotonic.
  - apply reachable_run, reachable_run, reachable_fresh.
  - vm_compute. reflexivity.
  - left.
Defined.

Lemma search_notes_unknown_scope_witness :
  (@search_notes SampleClock AsciiLower IsoShape "MILK" "bogus" two_notes_world).1
  = Return (SearchNoMatch "milk").
Proof.
  apply (@search_notes_unknown_scope SampleClock AsciiLower IsoShape two_notes_world
           [milk; report] "MILK" "bogus").
  - vm_compute. reflexivity.
  - discriminate.
  - apply (bool_decide_unpack _). vm_compute. reflexivity.
Defined.

(** * Further properties of the code *)

(** ** What a load can raise, and what it leaves of the file *)

#[local] Set Warnings "-clear-no-such-hyp".

Ltac in_list :=
  repeat first [apply list_elem_of_here | apply list_elem_of_further].



Section LoadRaises.
Context `{Clock}.

Lemma Note_init_not_Raise i t c cat pri tg st cr up w e w' :
  Note_init i t c cat pri tg st cr up w ≠ (Raise e, w').
Proof.
  unfold Note_init, py_or, isoformat_now, typed_note.
  cbv [mbind M_bind bind ret lift read_clock].
  repeat case_match; congruence.
Qed.




End LoadRaises.


Section ReadOnly.
Context `{Clock} `{StrLower} `{FromIsoformat}.

Lemma load_notes_file_Some w c :
  file w = Some c → file (load_notes w).2 = Some c.
Proof. intros Hf. rewrite load_notes_file. unfold contents. by rewrite Hf. Qed.

Lemma count_tags_file tgs w c :
  file w = Some c → file (count_tags tgs w).2 = Some c.
Proof.
  revert w. induction tgs as [|tag tgs IH]; intros w Hf; [done|].
  cbn [count_tags]. rewrite bind_run.
  pose proof (load_notes_file_Some w c Hf) as Hl.
  destruct (load_notes w) as [[ns|e|] w1]; [|done..].
  rewrite bind_run. specialize (IH w1 Hl).
  by destruct (count_tags tgs w1) as [[cs|e|] w2].
Qed.

Lemma list_tags_file w : file (list_tags w).2 = Some (contents w).
Proof.
  unfold list_tags, get_all_tags. rewrite !bind_run.
  pose proof (load_notes_file w) as Hl.
  destruct (load_notes w) as [[ns|e|] w1]; [|done..].
  cbn [ret]. destruct (sorted_texts _) as [|tag tgs]; [done|].
  rewrite bind_run.
  pose proof (count_tags_file (tag :: tgs) w1 _ Hl) as Hc.
  by destruct (count_tags (tag :: tgs) w1) as [[cs|e|] w2].
Qed.

(** X2.  Listing, searching and listing the tags write nothing, whatever
    the file holds and whether they return or raise: an existing file is
    left as it is, a missing one is created with the empty list. *)
Theorem queries_keep_file (o : op) (w : World) :
  is_query o →
  file (run o w).2 = Some (contents w) ∧
  ∀ c, file w = Some c → file (run o w).2 = Some c.
Proof.
  intros Hq.
  assert (file (run o w).2 = Some (contents w)) as Hf.
  { destruct o; try done; simpl.
    - apply list_notes_error.
    - apply search_notes_error.
    - apply list_tags_file. }
  split; [done|]. intros c Hc. rewrite Hf. unfold contents. by rewrite Hc.
Qed.

End ReadOnly.

Lemma queries_keep_file_witness :
  file (@run SampleClock AsciiLower IsoShape ListTags bogus_category_world).2
  = Some (contents bogus_category_world).
Proof.
  exact (proj1 (@queries_keep_file SampleClock AsciiLower IsoShape ListTags
                  bogus_category_world I)).
Defined.

Section LoadEdges.
Context `{Clock}.

(** X3.  A file that holds JSON other than a list: the load returns the
    empty list for the empty object and the empty text, which have
    nothing to iterate over, and raises [TypeError] for every other
    value. *)
Theorem load_notes_not_a_list (j : json) (t : nat) :
  is_list j = false →
  (load_notes (mkWorld (Some (Document j)) t)).1
  = if iterates_nothing j then Return [] else Raise TypeError.
Proof.
  intros Hj. destruct j as [| | | |s|l|m]; try done.
  - by destruct s.
  - unfold load_notes, try_except. rewrite bind_run.
    cbn [_ensure_file_exists file]. rewrite bind_run. cbn [json_load file].
    rewrite bind_lift. cbn [py_iter iterates_nothing].
    destruct (decide (m = ∅)) as [-> | Hne].
    + rewrite map_to_list_empty. by rewrite bool_decide_eq_true_2.
    + rewrite bool_decide_eq_false_2 by done.
      destruct (map_to_list m) as [|[k v] kvs] eqn:Hm.
      * by apply map_to_list_empty_iff in Hm.
      * reflexivity.
Qed.

(** X4.  A record with the required keys and no usable optional one (the
    key missing, or its value null, empty, zero or false) is loaded with
    no tags and with two successive readings of the clock as its
    timestamps. *)
Theorem from_dict_defaults (m : gmap string json) (i : Z) (ti c : string)
    (cat : NoteCategory) (pri : NotePriority) (st : NoteStatus) (w : World) :
  m !! "id" = Some (JInt i) →
  m !! "title" = Some (JStr ti) →
  m !! "content" = Some (JStr c) →
  m !! "category" = Some (JStr (category_value cat)) →
  m !! "priority" = Some (JStr (priority_value pri)) →
  m !! "status" = Some (JStr (status_value st)) →
  truthy (default (JArr []) (m !! "tags")) = false →
  truthy (default JNull (m !! "created_at")) = false →
  truthy (default JNull (m !! "updated_at")) = false →
  from_dict (JObj m) w =
  (Return (mkNote i ti c cat pri [] st (now (ticks w)) (now (S (ticks w)))),
   mkWorld (file w) (S (S (ticks w)))).
Proof.
  intros Hi Hti Hc Hcat Hpri Hst Htg Hcr Hup.
  unfold from_dict, subscript, dict_get.
  rewrite Hi, Hti, Hc, Hcat, Hpri, Hst, !bind_lift_return.
  rewrite NoteCategory_call_value, !bind_lift_return.
  rewrite NotePriority_call_value, !bind_lift_return.
  rewrite NoteStatus_call_value, !bind_lift_return.
  unfold Note_init, py_or. rewrite Htg, Hcr, Hup.
  reflexivity.
Qed.

End LoadEdges.

Lemma load_notes_not_a_list_witness :
  (@load_notes SampleClock
     (mkWorld (Some (Document (JObj (<["notes" := JArr []]> ∅)))) 0)).1
  = Raise TypeError.
Proof.
  exact (@load_notes_not_a_list SampleClock (JObj (<["notes" := JArr []]> ∅))
           0 eq_refl).
Defined.

Lemma from_dict_defaults_witness :
  (@from_dict SampleClock bare_record fresh_world).1
  = Return (mkNote 7 "Bare" "no optional key" IDEAS HIGH [] ARCHIVED
              (sample_now 0) (sample_now 1)).
Proof.
  unfold bare_record.
  rewrite (@from_dict_defaults SampleClock _ 7 "Bare" "no optional key"
             IDEAS HIGH ARCHIVED fresh_world);
    reflexivity.
Defined.

(** ** The enumerations and the records *)

Lemma enum_call_Return {E} (members : list E) value v e :
  enum_call members value v = Return e → v = JStr (value e).
Proof.
  destruct v; simpl; try done.
  unfold member_of. destruct (List.find _ _) as [m|] eqn:Hf; [|done].
  intros [= ->]. apply find_some in Hf as [_ Heq].
  apply String.eqb_eq in Heq. by rewrite Heq.
Qed.

(** X5.  The call of an enumeration returns a member exactly for the
    text that is the member's value: the lookup is by value, and it
    ignores neither case nor surrounding blanks. *)
Theorem enum_calls_accept_values (v : json) :
  (∀ c, NoteCategory_call v = Return c ↔ v = JStr (category_value c)) ∧
  (∀ p, NotePriority_call v = Return p ↔ v = JStr (priority_value p)) ∧
  (∀ s, NoteStatus_call v = Return s ↔ v = JStr (status_value s)).
Proof.
  split; [|split]; intros e; split.
  - apply enum_call_Return.
  - intros ->. apply NoteCategory_call_value.
  - apply enum_call_Return.
  - intros ->. apply NotePriority_call_value.
  - apply enum_call_Return.
  - intros ->. apply NoteStatus_call_value.
Qed.

Lemma as_int_inv v z : as_int v = Some z → v = JInt z.
Proof. destruct v; simpl; congruence. Qed.

Lemma as_str_inv v s : as_str v = Some s → v = JStr s.
Proof. destruct v; simpl; congruence. Qed.

Lemma as_str_list_aux_inv l ss : as_str_list_aux l = Some ss → l = JStr <$> ss.
Proof.
  revert ss. induction l as [|v l IH]; intros ss; simpl.
  - by intros [= <-].
  - destruct (as_str v) as [s|] eqn:Hv; [|done].
    destruct (as_str_list_aux l) as [ss'|]; [|done].
    intros [= <-]. rewrite fmap_cons.
    by rewrite (as_str_inv v s Hv), (IH ss' eq_refl).
Qed.

Lemma as_str_list_inv v ss : as_str_list v = Some ss → v = str_list ss.
Proof.
  destruct v; simpl; try done. intros Hl. unfold str_list.
  by rewrite (as_str_list_aux_inv _ _ Hl).
Qed.

Lemma subscript_Return d k v :
  subscript d k = Return v → ∃ m, d = JObj m ∧ m !! k = Some v.
Proof.
  destruct d; simpl; try done.
  destruct (m !! k) eqn:Hk; [|done]. intros [= <-]. eauto.
Qed.

Lemma typed_note_Return i t c cat pri tg st cr up n :
  typed_note i t c cat pri tg st cr up = Return n →
  i = JInt (id n) ∧ t = JStr (title n) ∧ c = JStr (content n) ∧
  cat = category n ∧ pri = priority n ∧ tg = str_list (tags n) ∧
  st = status n ∧ cr = JStr (created_at n) ∧ up = JStr (updated_at n).
Proof.
  unfold typed_note.
  destruct (as_int i) eqn:Hi; [|done].
  destruct (as_str t) eqn:Ht; [|done].
  destruct (as_str c) eqn:Hc; [|done].
  destruct (as_str_list tg) eqn:Htg; [|done].
  destruct (as_str cr) eqn:Hcr; [|done].
  destruct (as_str up) eqn:Hup; [|done].
  intros [= <-]. simpl.
  apply as_int_inv in Hi. apply as_str_inv in Ht, Hc, Hcr, Hup.
  apply as_str_list_inv in Htg. by subst.
Qed.

Section Decode.
Context `{Clock}.

Lemma Note_init_Return i t c cat pri tg st cr up w n w' :
  Note_init i t c cat pri tg st cr up w = (Return n, w') →
  i = JInt (id n) ∧ t = JStr (title n) ∧ c = JStr (content n) ∧
  cat = category n ∧ pri = priority n ∧ st = status n ∧
  (if truthy tg then tg = str_list (tags n) else tags n = []) ∧
  (truthy cr = true → cr = JStr (created_at n)) ∧
  (truthy up = true → up = JStr (updated_at n)).
Proof.
  unfold Note_init, py_or, isoformat_now.
  cbv [mbind M_bind bind ret lift read_clock].
  destruct (truthy tg), (truthy cr), (truthy up);
    intros [= Hn _]; apply typed_note_Return in Hn;
    destruct Hn as (-> & -> & -> & -> & -> & Htg & -> & Hcr & Hup);
    repeat split; try done;
    destruct (tags n); done.
Qed.

(** X6.  A note [from_dict] returns is the record read: the record is
    an object whose required keys hold the note's id, title and content
    and the values of its category, priority and status; the tags of the
    note, when it has some, are the record's, and a timestamp of the
    record that is a text and not empty is the note's. *)
Theorem from_dict_reads_record (d : json) (w : World) (n : Note) (w' : World) :
  from_dict d w = (Return n, w') →
  ∃ m, d = JObj m ∧
    m !! "id" = Some (JInt (id n)) ∧
    m !! "title" = Some (JStr (title n)) ∧
    m !! "content" = Some (JStr (content n)) ∧
    m !! "category" = Some (JStr (category_value (category n))) ∧
    m !! "priority" = Some (JStr (priority_value (priority n))) ∧
    m !! "status" = Some (JStr (status_value (status n))) ∧
    (tags n ≠ [] → m !! "tags" = Some (str_list (tags n))) ∧
    (∀ s, m !! "created_at" = Some (JStr s) → s ≠ EmptyString →
          created_at n = s) ∧
    (∀ s, m !! "updated_at" = Some (JStr s) → s ≠ EmptyString →
          updated_at n = s).
Proof.
  unfold from_dict. rewrite !bind_lift.
  destruct (subscript d "id") as [i| |] eqn:E1; [|done..].
  apply subscript_Return in E1 as (m & -> & Hi).
  intros Hrun. exists m. split; [done|]. revert Hrun. rewrite !bind_lift.
  destruct (subscript (JObj m) "title") as [t| |] eqn:E2; [|done..].
  apply subscript_Return in E2 as (? & [= <-] & Ht).
  rewrite !bind_lift.
  destruct (subscript (JObj m) "content") as [c| |] eqn:E3; [|done..].
  apply subscript_Return in E3 as (? & [= <-] & Hc).
  rewrite !bind_lift.
  destruct (subscript (JObj m) "category") as [vc| |] eqn:E4; [|done..].
  apply subscript_Return in E4 as (? & [= <-] & Hvc).
  rewrite !bind_lift.
  destruct (NoteCategory_call vc) as [cat| |] eqn:E5; [|done..].
  apply enum_call_Return in E5 as ->.
  rewrite !bind_lift.
  destruct (subscript (JObj m) "priority") as [vp| |] eqn:E6; [|done..].
  apply subscript_Return in E6 as (? & [= <-] & Hvp).
  rewrite !bind_lift.
  destruct (NotePriority_call vp) as [pri| |] eqn:E7; [|done..].
  apply enum_call_Return in E7 as ->.
  cbn [dict_get]. rewrite !bind_lift.
  destruct (subscript (JObj m) "status") as [vs| |] eqn:E8; [|done..].
  apply subscript_Return in E8 as (? & [= <-] & Hvs).
  rewrite !bind_lift.
  destruct (NoteStatus_call vs) as [st| |] eqn:E9; [|done..].
  apply enum_call_Return in E9 as ->.
  rewrite !bind_lift.
  intros (-> & -> & -> & -> & -> & -> & Htg & Hcr & Hup)%Note_init_Return.
  repeat split; try done.
  - intros Hne. destruct (m !! "tags") as [tg|] eqn:Em; simpl in Htg.
    + destruct (truthy tg); [by subst | done].
    + done.
  - intros s Hs Hne. rewrite Hs in Hcr. simpl in Hcr.
    destruct (String.eqb s EmptyString) eqn:Es;
      [by apply String.eqb_eq in Es|].
    by injection (Hcr eq_refl).
  - intros s Hs Hne. rewrite Hs in Hup. simpl in Hup.
    destruct (String.eqb s EmptyString) eqn:Es;
      [by apply String.eqb_eq in Es|].
    by injection (Hup eq_refl).
Qed.

End Decode.

Lemma from_dict_reads_record_witness :
  ∃ m, bare_record = JObj m ∧ m !! "id" = Some (JInt 7).
Proof.
  destruct (@from_dict_reads_record SampleClock bare_record fresh_world
              (mkNote 7 "Bare" "no optional key" IDEAS HIGH [] ARCHIVED
                 (sample_now 0) (sample_now 1))
              (mkWorld None 2) eq_refl)
    as (m & Hm & Hi & _).
  exists m. by split.
Defined.

(** ** A record without a required key *)

Section Damage.
Context `{Clock} `{StrLower}.

Lemma from_dict_Raise_world d w e w' :
  from_dict d w = (Raise e, w') → w' = w.
Proof.
  unfold from_dict.
  do 12 (rewrite bind_lift;
         match goal with
         | |- context [match ?o with
                       | Return _ => _ | Raise _ => _ | Untyped => _ end] =>
             destruct o; [|by intros [= _ <-] | done]
         end).
  intros Hn. by apply Note_init_not_Raise in Hn.
Qed.

Lemma from_dict_Raise_any d w0 e w :
  (from_dict d w0).1 = Raise e → from_dict d w = (Raise e, w).
Proof.
  intros Hd. pose proof (from_dict_same_ids d w0 w) as Hs. rewrite Hd in Hs.
  destruct (from_dict d w) as [[n|e'|] w'] eqn:Hw; simpl in Hs; try done.
  subst e'. by rewrite (from_dict_Raise_world d w e w' Hw).
Qed.

Lemma from_dict_each_after_saved_world ns rest w :
  Forall timestamped ns →
  from_dict_each ((to_dict <$> ns) ++ rest) w
  = match from_dict_each rest w with
    | (Return l, w') => (Return (ns ++ l), w')
    | (Raise e, w') => (Raise e, w')
    | (Untyped, w') => (Untyped, w')
    end.
Proof.
  induction 1 as [|n ns Hn _ IH].
  - cbn [fmap list_fmap app]. by destruct (from_dict_each rest w) as [[?|?|] ?].
  - rewrite fmap_cons. cbn [app from_dict_each].
    rewrite from_dict_to_dict by done. rewrite bind_run, IH.
    by destruct (from_dict_each rest w) as [[l'|e'|] w2].
Qed.

Lemma load_notes_after_saved_KeyError ns d k rest t w0 :
  Forall timestamped ns →
  (from_dict d w0).1 = Raise (KeyError k) →
  load_notes (mkWorld (Some (Document (JArr ((to_dict <$> ns) ++ d :: rest)))) t)
  = (Return [],
     mkWorld (Some (Document (JArr ((to_dict <$> ns) ++ d :: rest)))) t).
Proof.
  intros Hns Hd. unfold load_notes, try_except. rewrite bind_run.
  cbn [_ensure_file_exists file]. rewrite bind_run. cbn [json_load file].
  rewrite bind_lift. cbn [py_iter].
  rewrite from_dict_each_after_saved_world by done.
  cbn [from_dict_each]. by rewrite (from_dict_Raise_any d w0 (KeyError k)).
Qed.

(** X7.  One record without a required key empties the load: when the
    file holds saved notes, then a record at which [from_dict] raises
    [KeyError], then anything, the load returns the empty list, the
    notes before the record included. *)
Theorem load_notes_missing_key_empties (ns : list Note) (d : json)
    (k : string) (rest : list json) (w w0 : World) :
  Forall timestamped ns →
  (from_dict d w0).1 = Raise (KeyError k) →
  file w = Some (Document (JArr ((to_dict <$> ns) ++ d :: rest))) →
  (load_notes w).1 = Return [].
Proof.
  intros Hns Hd Hf. destruct w as [f t]. simpl in Hf. subst f.
  by rewrite (load_notes_after_saved_KeyError ns d k rest t w0).
Qed.

(** X8.  An accepted Add on such a file writes a file that holds the new
    note alone, under the id 1: the notes saved before the damaged record
    are gone. *)
Theorem add_note_drops_damaged_file (ns : list Note) (d : json) (k : string)
    (rest : list json) (t0 : nat) (w0 : World) (t c cat pri : string)
    (tg : option (list string)) (ncat : NoteCategory) (npri : NotePriority) :
  Forall timestamped ns →
  (from_dict d w0).1 = Raise (KeyError k) →
  NoteCategory_call (JStr (lower cat)) = Return ncat →
  NotePriority_call (JStr (lower pri)) = Return npri →
  add_note t c cat pri tg
    (mkWorld (Some (Document (JArr ((to_dict <$> ns) ++ d :: rest)))) t0)
  = (Return (Added 1 t),
     saved [mkNote 1 t c ncat npri (default [] tg) ACTIVE
              (now t0) (now (S t0))]
       (S (S t0))).
Proof.
  intros Hns Hd Hcat Hpri.
  pose proof (load_notes_after_saved_KeyError ns d k rest t0 w0 Hns Hd) as Hl.
  rewrite (add_note_loaded _ [] _ t c cat pri tg Hl), Hcat, Hpri, Hl.
  reflexivity.
Qed.

(** X9.  An accepted Add appends one note to the collection the load
    returned: the note has the title, the content and the tags given (no
    tags when none are given), the members the category and the priority
    name when lowered, the status active and two successive readings of
    the clock as its timestamps; the reply carries its id. *)
Theorem add_note_stores_note (w : World) (ns : list Note) (t c cat pri : string)
    (tg : option (list string)) (ncat : NoteCategory) (npri : NotePriority) :
  (load_notes w).1 = Return ns →
  NoteCategory_call (JStr (lower cat)) = Return ncat →
  NotePriority_call (JStr (lower pri)) = Return npri →
  ∃ n k,
    (add_note t c cat pri tg w).1 = Return (Added (id n) t) ∧
    (load_notes (add_note t c cat pri tg w).2).1 = Return (ns ++ [n]) ∧
    title n = t ∧ content n = c ∧ category n = ncat ∧ priority n = npri ∧
    tags n = default [] tg ∧ status n = ACTIVE ∧
    created_at n = now k ∧ updated_at n = now (S k).
Proof.
  intros Hl Hcat Hpri.
  destruct (load_notes w) as [o w1] eqn:Hw. simpl in Hl. subst o.
  rewrite (add_note_loaded w ns w1 t c cat pri tg Hw), Hcat, Hpri.
  exists (added_note ns t c ncat npri tg (load_notes w1).2),
         (ticks (load_notes w1).2).
  split; [done|]. split; [|done].
  cbn [snd]. unfold saved. rewrite load_notes_saved; [done|].
  apply Forall_app. split.
  - by eapply load_notes_timestamped.
  - apply Forall_singleton, timestamped_added.
Qed.

End Damage.

Lemma load_notes_missing_key_empties_witness :
  (@load_notes SampleClock damaged_world).1 = Return [].
Proof.
  apply (@load_notes_missing_key_empties SampleClock [milk; report]
           untitled_record "title" [] damaged_world fresh_world).
  - apply (bool_decide_unpack _). vm_compute. reflexivity.
  - reflexivity.
  - reflexivity.
Defined.

Lemma add_note_drops_damaged_file_witness :
  (@add_note SampleClock AsciiLower "Call" "the bank" "Work" "HIGH" None
     damaged_world).1
  = Return (Added 1 "Call").
Proof.
  assert (Forall timestamped [milk; report]) as Hts.
  { apply (bool_decide_unpack _). vm_compute. reflexivity. }
  exact (f_equal fst
           (@add_note_drops_damaged_file SampleClock AsciiLower [milk; report]
              untitled_record "title" [] 9 fresh_world "Call" "the bank"
              "Work" "HIGH" None WORK HIGH Hts eq_refl eq_refl eq_refl)).
Defined.

Lemma add_note_stores_note_witness :
  ∃ n,
    (@load_notes SampleClock
       (@add_note SampleClock AsciiLower "Call" "the bank" "Work" "HIGH" None
          two_notes_world).2).1 = Return ([milk; report] ++ [n]) ∧
    category n = WORK ∧ priority n = HIGH ∧ tags n = [].
Proof.
  destruct (@add_note_stores_note SampleClock AsciiLower two_notes_world
              [milk; report] "Call" "the bank" "Work" "HIGH" None WORK HIGH
              load_two_notes_world eq_refl eq_refl)
    as (n & k & _ & Hl & _ & _ & Hcat & Hpri & Htg & _).
  exists n. by repeat split.
Defined.

(** ** Deleting *)

Section Deleting.
Context `{Clock} `{StrLower}.



End Deleting.



(** ** Archiving *)

Section Archiving.
Context `{Clock} `{StrLower}.


End Archiving.


(** ** What a listing holds *)

Lemma enum_call_accepts {E} (members : list E) (value : E → string) x :
  (∃ e, enum_call members value (JStr x) = Return e) ↔ x ∈ value <$> members.
Proof.
  simpl. unfold member_of. split.
  - intros [e He]. destruct (List.find _ _) as [m|] eqn:Hf; [|done].
    apply find_some in Hf as [Hin Heq%String.eqb_eq]. subst x.
    apply list_elem_of_fmap_2. by apply list_elem_of_In.
  - intros (e & -> & Hin%list_elem_of_In)%list_elem_of_fmap.
    destruct (List.find _ _) as [m|] eqn:Hf; [eauto|].
    eapply find_none in Hf; [|done]. simpl in Hf.
    by rewrite String.eqb_refl in Hf.
Qed.

Lemma filter_all {A} (P : A → Prop) `{∀ x, Decision (P x)} (l : list A) :
  (∀ x, x ∈ l → P x) → filter P l = l.
Proof.
  induction l as [|x l IH]; intros Hall; [done|].
  rewrite filter_cons_True by (apply Hall; left).
  f_equal. apply IH. intros y Hy. apply Hall. by right.
Qed.

Section Listings.
Context `{Clock} `{StrLower} `{FromIsoformat}.

Lemma filter_by_spec {E} `{EqDecision E} arg (members : list E)
    (value : E → string) field bad l :
  (∀ e, enum_call members value (JStr (value e)) = Return e) →
  match filter_by arg (enum_call members value) field bad l with
  | inr l' => accepted arg (value <$> members) ∧
              ∀ n, n ∈ l' ↔ n ∈ l ∧ passes arg (value (field n))
  | inl r => ∃ s, supplied arg = Some s ∧ r = bad s ∧
                  lower s ∉ value <$> members
  end.
Proof.
  intros Hval. unfold filter_by, passes, accepted.
  destruct (supplied arg) as [s|]; [|split; [done | tauto]].
  destruct (enum_call members value (JStr (lower s))) as [a| |] eqn:Hc.
  - split.
    + intros ? [= <-]. apply enum_call_accepts. eauto.
    + intros n. rewrite list_elem_of_filter.
      apply enum_call_Return in Hc as [= Hs]. rewrite Hs. split.
      * intros [-> Hn]. done.
      * intros [Hn Hv]. split; [|done].
        pose proof (Hval a) as Ha. rewrite Hv, Hval in Ha. by injection Ha.
  - exists s. repeat split.
    intros [e' He]%enum_call_accepts. by rewrite He in Hc.
  - exists s. repeat split.
    intros [e' He]%enum_call_accepts. by rewrite He in Hc.
Qed.

Lemma list_reply_elem cat pri st sc ns n :
  n ∈ listed (Return (list_reply cat pri st sc ns)) ↔
  n ∈ ns ∧
  passes cat (category_value (category n)) ∧
  passes pri (priority_value (priority n)) ∧
  passes st (status_value (status n)).
Proof.
  unfold list_reply. destruct ns as [|n0 ns'].
  { simpl. split; [by intros ?%elem_of_nil | by intros [?%elem_of_nil _]]. }
  set (ns := n0 :: ns').
  pose proof (filter_by_spec cat _ category_value category BadCategory ns
                NoteCategory_call_value) as Hc.
  fold NoteCategory_call in Hc.
  destruct (filter_by cat NoteCategory_call category BadCategory ns)
    as [r|l1].
  { destruct Hc as (s & Hsup & -> & Hno). simpl. split; [by intros ?%elem_of_nil|].
    intros (_ & Hq & _). unfold passes in Hq. rewrite Hsup in Hq.
    destruct Hno. rewrite Hq. apply list_elem_of_fmap_2'
      with (x := category n); [|done]. destruct (category n); in_list. }
  pose proof (filter_by_spec pri _ priority_value priority BadPriority l1
                NotePriority_call_value) as Hp.
  fold NotePriority_call in Hp.
  destruct (filter_by pri NotePriority_call priority BadPriority l1)
    as [r|l2].
  { destruct Hp as (s & Hsup & -> & Hno). simpl. split; [by intros ?%elem_of_nil|].
    intros (_ & _ & Hq & _). unfold passes in Hq. rewrite Hsup in Hq.
    destruct Hno. rewrite Hq. apply list_elem_of_fmap_2'
      with (x := priority n); [|done]. destruct (priority n); in_list. }
  pose proof (filter_by_spec st _ status_value status BadStatus l2
                NoteStatus_call_value) as Hs.
  fold NoteStatus_call in Hs.
  destruct (filter_by st NoteStatus_call status BadStatus l2)
    as [r|l3].
  { destruct Hs as (s & Hsup & -> & Hno). simpl. split; [by intros ?%elem_of_nil|].
    intros (_ & _ & _ & Hq). unfold passes in Hq. rewrite Hsup in Hq.
    destruct Hno. rewrite Hq. apply list_elem_of_fmap_2'
      with (x := status n); [|done]. destruct (status n); in_list. }
  destruct Hc as [_ Hc], Hp as [_ Hp], Hs as [_ Hs].
  assert (n ∈ l3 ↔ n ∈ ns ∧ passes cat (category_value (category n)) ∧
                    passes pri (priority_value (priority n)) ∧
                    passes st (status_value (status n))) as Hl3.
  { rewrite Hs, Hp, Hc. tauto. }
  rewrite <- Hl3. destruct l3 as [|n3 l3]; [done|].
  cbn [listed]. by rewrite sort_created_at_reverse_perm.
Qed.


Lemma rendered_validation r0 r :
  validation_error r → rendered r0 = Return r ↔ r0 = r.
Proof.
  intros Hr. split.
  - by intros [-> _]%rendered_Return.
  - intros ->. by destruct r.
Qed.

(** X13.  A listing that returns holds exactly the notes of the
    collection that pass the three filters: each of category, priority
    and status is absent or empty, or is the value of the note's field
    but for case.  The listing returns when [str] returns for every such
    note, and raises [ValueError] when it does not for one of them. *)
Theorem list_notes_lists (w : World) (ns : list Note)
    (cat pri st : option string) (sc : bool) :
  (load_notes w).1 = Return ns →
  let passing n :=
    n ∈ ns ∧
    passes cat (category_value (category n)) ∧
    passes pri (priority_value (priority n)) ∧
    passes st (status_value (status n)) in
  (∀ r n, (list_notes cat pri st sc w).1 = Return r →
          n ∈ listed (Return r) ↔ passing n) ∧
  ((∀ n, passing n → renders n) →
   ∃ r, (list_notes cat pri st sc w).1 = Return r) ∧
  (∀ n, passing n → ¬ renders n →
        (list_notes cat pri st sc w).1 = Raise ValueError).
Proof.
  intros Hl passing.
  assert (∀ n, n ∈ notes_of (list_reply cat pri st sc ns) ↔ passing n) as Hp.
  { intros n. rewrite <- listed_Return. apply list_reply_elem. }
  rewrite (list_notes_reply w ns cat pri st sc Hl). split; [|split].
  - intros r n [-> _]%rendered_Return. by rewrite listed_Return.
  - intros Hall. eexists. apply rendered_renders, Forall_forall.
    intros n Hn. by apply Hall, Hp.
  - intros n Hn Hno. apply (rendered_raises _ n); [by apply Hp | done].
Qed.


Lemma list_reply_validation (ns : list Note) (cat pri st : option string)
    (sc : bool) :
  ns ≠ [] →
  (∀ s, list_reply cat pri st sc ns = BadCategory s ↔
        supplied cat = Some s ∧ lower s ∉ category_values) ∧
  (∀ s, list_reply cat pri st sc ns = BadPriority s ↔
        accepted cat category_values ∧
        supplied pri = Some s ∧ lower s ∉ priority_values) ∧
  (∀ s, list_reply cat pri st sc ns = BadStatus s ↔
        accepted cat category_values ∧ accepted pri priority_values ∧
        supplied st = Some s ∧ lower s ∉ status_values).
Proof.
  intros Hne. unfold list_reply. destruct ns as [|n0 ns']; [done|].
  set (ns := n0 :: ns').
  pose proof (filter_by_spec cat _ category_value category BadCategory ns
                NoteCategory_call_value) as Hc.
  fold NoteCategory_call in Hc. fold category_values in Hc.
  destruct (filter_by cat NoteCategory_call category BadCategory ns)
    as [r|l1].
  { destruct Hc as (s & Hs & -> & Hno).
    unfold accepted. rewrite Hs. naive_solver. }
  destruct Hc as [Hc _].
  pose proof (filter_by_spec pri _ priority_value priority BadPriority l1
                NotePriority_call_value) as Hp.
  fold NotePriority_call in Hp. fold priority_values in Hp.
  destruct (filter_by pri NotePriority_call priority BadPriority l1)
    as [r|l2].
  { destruct Hp as (s & Hs & -> & Hno).
    unfold accepted in *. rewrite Hs. naive_solver. }
  destruct Hp as [Hp _].
  pose proof (filter_by_spec st _ status_value status BadStatus l2
                NoteStatus_call_value) as Hs.
  fold NoteStatus_call in Hs. fold status_values in Hs.
  destruct (filter_by st NoteStatus_call status BadStatus l2)
    as [r|l3].
  { destruct Hs as (s & Hsup & -> & Hno).
    unfold accepted in *. rewrite Hsup. naive_solver. }
  destruct Hs as [Hs _].
  unfold accepted in *. destruct l3; naive_solver.
Qed.

(** X15.  The validation of a listing: on an empty collection the reply
    is that there are no notes, whatever the arguments; otherwise the
    arguments are checked in the order category, priority, status, and
    the listing returns the error reply of an argument exactly when it is
    the first that is given, not empty, and no value of its class but for
    case. *)
Theorem list_notes_validation (w : World) (ns : list Note)
    (cat pri st : option string) (sc : bool) :
  (load_notes w).1 = Return ns →
  (ns = [] → (list_notes cat pri st sc w).1 = Return NoNotes) ∧
  (ns ≠ [] →
   (∀ s, (list_notes cat pri st sc w).1 = Return (BadCategory s) ↔
         supplied cat = Some s ∧ lower s ∉ category_values) ∧
   (∀ s, (list_notes cat pri st sc w).1 = Return (BadPriority s) ↔
         accepted cat category_values ∧
         supplied pri = Some s ∧ lower s ∉ priority_values) ∧
   (∀ s, (list_notes cat pri st sc w).1 = Return (BadStatus s) ↔
         accepted cat category_values ∧ accepted pri priority_values ∧
         supplied st = Some s ∧ lower s ∉ status_values)).
Proof.
  intros Hl. rewrite (list_notes_reply w ns cat pri st sc Hl).
  split; [by intros ->|]. intros Hne.
  destruct (list_reply_validation ns cat pri st sc Hne) as (Hc & Hp & Hs).
  split; [|split]; intros s; by rewrite rendered_validation.
Qed.

End Listings.

Lemma load_undated :
  (@load_notes SampleClock (saved [milk; undated] 9)).1
  = Return [milk; undated].
Proof. vm_compute. reflexivity. Qed.

Lemma undated_no_render : ¬ @renders IsoShape undated.
Proof. vm_compute. discriminate. Qed.

Lemma list_notes_lists_witness :
  report ∈ listed (@list_notes SampleClock AsciiLower IsoShape (Some "WORK")
                     None (Some "Archived") false two_notes_world).1 ∧
  (@list_notes SampleClock AsciiLower IsoShape None None None false
     (saved [milk; undated] 9)).1 = Raise ValueError.
Proof.
  split.
  - apply (proj1 (@list_notes_lists SampleClock AsciiLower IsoShape
                    two_notes_world [milk; report] (Some "WORK") None
                    (Some "Archived") false load_two_notes_world)
             (Listing [report] false) report).
    + vm_compute. reflexivity.
    + split; [right; left | by repeat split].
  - apply (proj2 (proj2 (@list_notes_lists SampleClock AsciiLower IsoShape
                           (saved [milk; undated] 9) [milk; undated]
                           None None None false load_undated))
             undated).
    + split; [right; left | by repeat split].
    + apply undated_no_render.
Defined.


Lemma list_notes_validation_witness :
  (@list_notes SampleClock AsciiLower IsoShape (Some "nowhere")
     (Some "urgent") None false two_notes_world).1
  = Return (BadCategory "nowhere").
Proof.
  apply (proj2 (@list_notes_validation SampleClock AsciiLower IsoShape
                  two_notes_world [milk; report] (Some "nowhere")
                  (Some "urgent") None false load_two_notes_world)).
  - discriminate.
  - split; [reflexivity|].
    apply (bool_decide_unpack _). vm_compute. reflexivity.
Defined.

(** ** Searching for the empty text *)

Lemma str_in_empty s : str_in EmptyString s = true.
Proof. by destruct s. Qed.

Lemma existsb_true {A} (l : list A) : existsb (fun _ => true) l = true ↔ l ≠ [].
Proof. by destruct l. Qed.

Section EmptyTerm.
Context `{Clock} `{StrLower} `{FromIsoformat}.

Lemma lower_empty : lower EmptyString = EmptyString.
Proof. by rewrite lower_ascii. Qed.

(** X16.  The empty search text is in every text.  In the scopes all,
    title and content the search returns the whole collection, newest
    first, when [str] returns for every note, and raises [ValueError]
    otherwise; in the scope tags a search that returns lists the notes
    that have a tag. *)
Theorem search_notes_empty_term (w : World) (ns : list Note) (scope : string) :
  (load_notes w).1 = Return ns → ns ≠ [] →
  (scope ∈ ["all"; "title"; "content"] →
   (Forall renders ns →
    (search_notes EmptyString scope w).1
    = Return (SearchHits EmptyString (sort_created_at_reverse ns))) ∧
   (¬ Forall renders ns →
    (search_notes EmptyString scope w).1 = Raise ValueError)) ∧
  (∀ r n, (search_notes EmptyString "tags" w).1 = Return r →
          n ∈ listed (Return r) ↔ n ∈ ns ∧ tags n ≠ []).
Proof.
  intros Hl Hne. rewrite !(search_notes_reply w ns _ _ Hl). split.
  - intros Hscope.
    assert (search_reply EmptyString scope ns
            = SearchHits EmptyString (sort_created_at_reverse ns)) as ->.
    { unfold search_reply. rewrite lower_empty.
      assert (∀ n, matches EmptyString scope n = true) as Hall.
      { intros n. unfold matches. rewrite !str_in_empty.
        repeat apply elem_of_cons in Hscope as [-> | Hscope];
          [done.. | by apply elem_of_nil in Hscope]. }
      rewrite filter_all by (intros n _; apply Is_true_true_2, Hall).
      by destruct ns. }
    split.
    + intros Hr. apply rendered_renders. cbn [notes_of].
      by rewrite sort_created_at_reverse_perm.
    + intros Hno. apply not_Forall_Exists in Hno; [|apply _].
      apply Exists_exists in Hno as (n & Hn & Hnr).
      apply (rendered_raises _ n); [|done]. cbn [notes_of].
      by rewrite sort_created_at_reverse_perm.
  - intros r n [-> _]%rendered_Return.
    rewrite listed_Return, search_reply_listed, lower_empty.
    unfold matches.
    replace (scope_in "tags" ["all"; "title"]) with false by done.
    replace (scope_in "tags" ["all"; "content"]) with false by done.
    replace (scope_in "tags" ["all"; "tags"]) with true by done.
    cbn [andb].
    assert (existsb (λ tag, str_in EmptyString (lower tag)) (tags n)
            = existsb (λ _, true) (tags n)) as ->.
    { induction (tags n) as [|tag l IH]; [done|].
      simpl. by rewrite str_in_empty. }
    pose proof (existsb_true (tags n)) as He.
    destruct (existsb _ (tags n)); naive_solver.
Qed.

End EmptyTerm.

Lemma search_notes_empty_term_witness :
  (@search_notes SampleClock AsciiLower IsoShape EmptyString "title"
     two_notes_world).1
  = Return (SearchHits EmptyString
              (sort_created_at_reverse [milk; report])) ∧
  (@search_notes SampleClock AsciiLower IsoShape EmptyString "title"
     (saved [milk; undated] 9)).1 = Raise ValueError.
Proof.
  split.
  - apply (@search_notes_empty_term SampleClock AsciiLower IsoShape
             two_notes_world [milk; report] "title" load_two_notes_world).
    + discriminate.
    + right. left.
    + apply (bool_decide_unpack _). vm_compute. reflexivity.
  - apply (@search_notes_empty_term SampleClock AsciiLower IsoShape
             (saved [milk; undated] 9) [milk; undated] "title" load_undated).
    + discriminate.
    + right. left.
    + intros Hr. apply undated_no_render.
      by apply (proj1 (Forall_forall _ _) Hr), elem_of_cons; right; left.
Defined.

(** ** The tags *)

Lemma sorted_texts_spec (s : gset string) :
  StronglySorted String.le (sorted_texts s) ∧ NoDup (sorted_texts s) ∧
  ∀ x, x ∈ sorted_texts s ↔ x ∈ s.
Proof.
  unfold sorted_texts. split; [|split].
  - apply StronglySorted_merge_sort; apply _.
  - rewrite merge_sort_Permutation. apply NoDup_elements.
  - intros x. by rewrite merge_sort_Permutation, elem_of_elements.
Qed.

Lemma all_tags_elem (ns : list Note) (tag : string) :
  tag ∈ (⋃ ((fun n => list_to_set (tags n)) <$> ns) : gset string)
  ↔ ∃ n, n ∈ ns ∧ tag ∈ tags n.
Proof.
  rewrite elem_of_union_list. split.
  - intros (X & (n & -> & Hn)%list_elem_of_fmap & Hx).
    exists n. split; [done|]. by apply elem_of_list_to_set in Hx.
  - intros (n & Hn & Hx). exists (list_to_set (tags n)). split.
    + apply list_elem_of_fmap. by exists n.
    + by apply elem_of_list_to_set.
Qed.

Section TagList.
Context `{Clock} `{StrLower}.

(** X17.  The tags [get_all_tags] returns are the tags of the notes of
    the collection, each once, in the ascending order of texts. *)
Theorem get_all_tags_sorted_unique (w : World) (ns : list Note) :
  (load_notes w).1 = Return ns →
  ∃ tgs, (get_all_tags w).1 = Return tgs ∧
    StronglySorted String.le tgs ∧ NoDup tgs ∧
    ∀ tag, tag ∈ tgs ↔ ∃ n, n ∈ ns ∧ tag ∈ tags n.
Proof.
  intros Hl. unfold get_all_tags. rewrite bind_run.
  destruct (load_notes w) as [o w1]. simpl in Hl. subst o.
  eexists. split; [done|].
  destruct (sorted_texts_spec (⋃ ((fun n => list_to_set (tags n)) <$> ns)))
    as (Hs & Hnd & Hin).
  split; [done|]. split; [done|].
  intros tag. by rewrite Hin, all_tags_elem.
Qed.

Lemma count_tags_run tgs ns t :
  Forall timestamped ns →
  count_tags tgs (saved ns t)
  = (Return ((fun tag => (tag, length (filter (fun n => tag ∈ tags n) ns)))
               <$> tgs),
     saved ns t).
Proof.
  intros Hts. induction tgs as [|tag tgs IH]; [done|].
  cbn [count_tags]. rewrite bind_run.
  rewrite (load_notes_holds_saved (saved ns t) ns) by by apply holds_saved.
  cbn [saved ticks]. rewrite bind_run. fold (saved ns t). by rewrite IH.
Qed.


End TagList.

Lemma get_all_tags_sorted_unique_witness :
  ∃ tgs, (@get_all_tags SampleClock two_notes_world).1 = Return tgs ∧
         NoDup tgs.
Proof.
  destruct (@get_all_tags_sorted_unique SampleClock two_notes_world
              [milk; report] load_two_notes_world)
    as (tgs & Hr & _ & Hnd & _).
  exists tgs. by split.
Defined.


(** ** The stores the operations lead to *)

Lemma next_id_of_positive ns : (∀ i, i ∈ ids ns → 1 ≤ i) → 1 ≤ next_id_of ns.
Proof.
  intros Hpos. destruct (next_id_of_spec ns) as [[_ ->] | [Hin _]]; [lia|].
  apply Hpos in Hin. lia.
Qed.

Lemma well_numbered_snoc ns n :
  well_numbered ns → id n = next_id_of ns → well_numbered (ns ++ [n]).
Proof.
  intros [Hnd Hpos] Hid. split; [by apply NoDup_ids_snoc|].
  intros i. unfold ids. rewrite fmap_app.
  intros [Hi | Hi%list_elem_of_singleton]%elem_of_app; [by apply Hpos|].
  subst i. rewrite Hid. by apply next_id_of_positive.
Qed.

Lemma well_numbered_remove b n a :
  well_numbered (b ++ n :: a) → well_numbered (b ++ a).
Proof.
  unfold well_numbered, ids. rewrite !fmap_app, fmap_cons.
  intros [Hnd Hpos]. split.
  - apply NoDup_app in Hnd as (Hb & Hdis & [_ Ha]%NoDup_cons).
    apply NoDup_app. split; [done|]. split; [|done].
    intros x Hx Hxa. apply (Hdis x Hx). by right.
  - intros i [Hi | Hi]%elem_of_app; apply Hpos, elem_of_app;
      [by left | right; by right].
Qed.

Lemma well_numbered_replace b n n' a :
  id n' = id n → well_numbered (b ++ n :: a) → well_numbered (b ++ n' :: a).
Proof.
  intros Hid. unfold well_numbered, ids.
  by rewrite !fmap_app, !fmap_cons, Hid.
Qed.

Lemma id_assigned t c cat pri tg n : id (assigned t c cat pri tg n) = id n.
Proof. by destruct t, c, cat, pri, tg. Qed.

Section Numbered.
Context `{Clock} `{StrLower} `{FromIsoformat}.

Lemma run_well_numbered o w ns :
  holds w ns → well_numbered ns →
  ∃ ns', holds (run o w).2 ns' ∧ well_numbered ns'.
Proof.
  intros Hw Hwn.
  assert (holds (saved ns (ticks w)) ns) as Hsame by apply holds_saved, Hw.
  destruct o as [t c cat pri tg|cat pri st sc|term scope
                |i|i|i t c cat pri tg|]; simpl.
  - rewrite (add_note_run w ns) by done.
    destruct (NoteCategory_call (JStr (lower cat))) as [ncat| |];
      [destruct (NotePriority_call (JStr (lower pri))) as [npri| |] |..].
    2-5: by exists ns.
    eexists. split.
    + apply holds_saved, Forall_app. split; [apply Hw|].
      apply Forall_singleton, timestamped_added.
    + by apply well_numbered_snoc.
  - rewrite (list_notes_world w ns) by done. by exists ns.
  - rewrite (search_notes_world w ns) by done. by exists ns.
  - rewrite (delete_note_run w ns) by done.
    destruct (find_note i ns) as [[[b n] a]|] eqn:E; [|by exists ns].
    apply find_note_Some in E as (-> & _ & _).
    exists (b ++ a). split; [|by eapply well_numbered_remove].
    apply holds_saved. destruct Hw as [Hts _].
    rewrite Forall_app, Forall_cons in Hts. rewrite Forall_app. tauto.
  - rewrite (archive_note_run w ns) by done.
    destruct (find_note i ns) as [[[b n] a]|] eqn:E; [|by exists ns].
    apply find_note_Some in E as (-> & _ & _).
    destruct (status n); [|by eexists].
    eexists. split.
    + apply holds_saved, (holds_replace b n); [apply Hw|].
      split; simpl; [eapply holds_timestamped_middle, Hw | apply now_nonempty].
    + by eapply (well_numbered_replace b n).
  - rewrite (edit_note_run w ns) by done.
    destruct (find_note i ns) as [[[b n] a]|] eqn:E; [|by exists ns].
    apply find_note_Some in E as (-> & _ & _).
    destruct (validated cat NoteCategory_call BadCategory) as [e|ncat];
      [by eexists|].
    destruct (validated pri NotePriority_call BadPriority) as [e|npri];
      [by eexists|].
    eexists. split.
    + apply holds_saved, (holds_replace b n); [apply Hw|].
      split; [|apply now_nonempty].
      pose proof (holds_timestamped_middle _ _ _ _ Hw) as [Hc _].
      by destruct t, c, ncat, npri, tg.
    + eapply (well_numbered_replace b n); [|done]. apply id_assigned.
  - rewrite (list_tags_world w ns) by done. by exists ns.
Qed.

Lemma reachable_well_numbered w :
  reachable w → ∃ ns, holds w ns ∧ well_numbered ns.
Proof.
  induction 1 as [t | o w _ (ns & Hns & Hwn)].
  - exists []. split; [split; [constructor | by right]|].
    split; [constructor | by intros i ?%elem_of_nil].
  - by apply (run_well_numbered o w ns).
Qed.

(** X19.  Whatever operations were run on a store that started without a
    file, the store loads, and the notes it loads have distinct ids, all
    of them at least 1. *)
Theorem reachable_ids_distinct (w : World) :
  reachable w →
  ∃ ns, (load_notes w).1 = Return ns ∧ NoDup (ids ns) ∧
        ∀ n, n ∈ ns → 1 ≤ id n.
Proof.
  intros (ns & Hw & Hnd & Hpos)%reachable_well_numbered.
  exists ns. rewrite (load_notes_holds_saved w ns Hw).
  split; [done|]. split; [done|].
  intros n Hn. by apply Hpos, list_elem_of_fmap_2.
Qed.

Lemma run_returns o w ns :
  holds w ns → Forall renders ns → ∃ r, (run o w).1 = Return r.
Proof.
  intros Hw Hr.
  assert ((load_notes w).1 = Return ns) as Hl
    by by rewrite (load_notes_holds_saved w ns Hw).
  destruct o as [t c cat pri tg|cat pri st sc|term scope
                |i|i|i t c cat pri tg|]; simpl.
  - rewrite (add_note_run w ns) by done.
    destruct (NoteCategory_call (JStr (lower cat))) as [ncat| |];
      [destruct (NotePriority_call (JStr (lower pri))) as [npri| |] |..];
      by eexists.
  - eexists. rewrite (list_notes_reply w ns _ _ _ _ Hl).
    apply rendered_renders, Forall_forall. intros n Hn.
    rewrite <- listed_Return in Hn. apply list_reply_elem in Hn as [Hn _].
    by apply (proj1 (Forall_forall _ _) Hr).
  - eexists. rewrite (search_notes_reply w ns _ _ Hl).
    apply rendered_renders, Forall_forall.
    intros n [Hn _]%search_reply_listed.
    by apply (proj1 (Forall_forall _ _) Hr).
  - rewrite (delete_note_run w ns) by done.
    destruct (find_note i ns) as [[[b n] a]|]; by eexists.
  - rewrite (archive_note_run w ns) by done.
    destruct (find_note i ns) as [[[b n] a]|]; [destruct (status n)|];
      by eexists.
  - rewrite (edit_note_run w ns) by done.
    destruct (find_note i ns) as [[[b n] a]|]; [|by eexists].
    destruct (validated cat NoteCategory_call BadCategory) as [e|ncat];
      [by eexists|].
    destruct (validated pri NotePriority_call BadPriority) as [e|npri];
      by eexists.
  - unfold list_tags, get_all_tags.
    rewrite !bind_run, (load_notes_holds_saved w ns Hw). cbn [ret].
    destruct (sorted_texts _) as [|tag tgs]; [by eexists|].
    rewrite bind_run, count_tags_run by apply Hw. by eexists.
Qed.

(** X20.  On such a store, when [fromisoformat] accepts what [isoformat]
    gave of the readings of the clock, every operation returns a reply:
    none of the seven raises, the rendering of the listed notes
    included, and none goes on with a note that is not of the documented
    types. *)
Theorem reachable_run_returns (o : op) (w : World) :
  accepts_readings → reachable w → ∃ r, (run o w).1 = Return r.
Proof.
  intros Hacc (ns & Hw & Hst)%reachable_settled.
  apply (run_returns o w ns Hw).
  eapply Forall_impl; [done|].
  intros n (i & _ & _ & Hc & _). unfold renders. rewrite Hc. apply Hacc.
Qed.

End Numbered.

Lemma reachable_ids_distinct_witness :
  ∃ ns, (@load_notes SampleClock
           (@run SampleClock AsciiLower IsoShape (Delete 1)
              (@run SampleClock AsciiLower IsoShape
                 (Add "Buy milk" "2% milk, eggs" "shopping" "low" None)
                 fresh_world).2).2).1 = Return ns
        ∧ NoDup (ids ns).
Proof.
  destruct (@reachable_ids_distinct SampleClock AsciiLower IsoShape
              (@run SampleClock AsciiLower IsoShape (Delete 1)
                 (@run SampleClock AsciiLower IsoShape
                    (Add "Buy milk" "2% milk, eggs" "shopping" "low" None)
                    fresh_world).2).2)
    as (ns & Hl & Hnd & _).
  - apply (@reachable_run SampleClock AsciiLower IsoShape),
          (@reachable_run SampleClock AsciiLower IsoShape), reachable_fresh.
  - exists ns. by split.
Defined.

Lemma reachable_run_returns_witness :
  ∃ r, (@run SampleClock AsciiLower IsoShape (List_ None None None true)
          (@run SampleClock AsciiLower IsoShape
             (Add "Buy milk" "2% milk, eggs" "shopping" "low"
                (Some ["errand"])) fresh_world).2).1 = Return r.
Proof.
  apply (@reachable_run_returns SampleClock AsciiLower IsoShape).
  - apply iso_shape_accepts_readings.
  - apply (@reachable_run SampleClock AsciiLower IsoShape), reachable_fresh.
Defined.

(** ** Editing *)

Section Editing.
Context `{Clock} `{StrLower} `{FromIsoformat}.

Lemma validated_spec {E} arg (members : list E) (value : E → string) bad :
  match validated arg (enum_call members value) bad with
  | inr o => accepted arg (value <$> members) ∧
             match o with
             | Some e => ∃ s, supplied arg = Some s ∧ lower s = value e
             | None => supplied arg = None
             end
  | inl r => ∃ s, supplied arg = Some s ∧ r = bad s ∧
                  lower s ∉ value <$> members
  end.
Proof.
  unfold validated, accepted.
  destruct (supplied arg) as [s|]; [|done].
  destruct (enum_call members value (JStr (lower s))) as [a| |] eqn:Hc.
  - split.
    + intros ? [= <-]. apply enum_call_accepts. eauto.
    + exists s. split; [done|]. by apply enum_call_Return in Hc as [= Hs].
  - exists s. repeat split.
    intros [e' He]%enum_call_accepts. by rewrite He in Hc.
  - exists s. repeat split.
    intros [e' He]%enum_call_accepts. by rewrite He in Hc.
Qed.


(** X22.  An id no note of the collection has is answered as not found
    by Delete, Archive and Edit alike; Edit answers so before it looks at
    its other arguments. *)
Theorem unknown_id_not_found (w : World) (ns : list Note) (i : Z)
    (t c cat pri : option string) (tg : option (list string)) :
  (load_notes w).1 = Return ns → i ∉ ids ns →
  (delete_note i w).1 = Return (NotFound i) ∧
  (archive_note i w).1 = Return (NotFound i) ∧
  (edit_note i t c cat pri tg w).1 = Return (NotFound i).
Proof.
  intros Hl Hi%find_note_None.
  unfold delete_note, archive_note, edit_note. rewrite !bind_run.
  destruct (load_notes w) as [o w1]. simpl in Hl. subst o.
  by rewrite Hi.
Qed.

(** X23.  A store without a file is a store whose file holds the empty
    list: each of the seven operations gives the same reply and leaves
    the same file and clock on the one as on the other.  A query answers
    that there are no notes, or no tags, whatever its arguments, and
    leaves the file with the empty list. *)
Theorem missing_file_as_empty_list (o : op) (t : nat) :
  run o (mkWorld None t) = run o (mkWorld (Some (Document (JArr []))) t) ∧
  (is_query o →
   run o (mkWorld None t)
   = (Return (empty_reply o), mkWorld (Some (Document (JArr []))) t)).
Proof.
  split.
  - destruct o; simpl;
      unfold add_note, list_notes, search_notes, delete_note, archive_note,
        edit_note, list_tags, get_all_tags;
      by rewrite !bind_run, load_notes_missing,
           (load_notes_saved [] t (Forall_nil_2 _)).
  - by destruct o.
Qed.

(** X24.  The validation of an Add: the category is checked before the
    priority, each lowered and against the values of its class, without
    an exemption for the empty text; the note is added under the next id
    exactly when both are values. *)
Theorem add_note_validation (w : World) (ns : list Note)
    (t c cat pri : string) (tg : option (list string)) :
  (load_notes w).1 = Return ns →
  ∃ r, (add_note t c cat pri tg w).1 = Return r ∧
    (∀ s, r = BadCategory s ↔ s = cat ∧ lower cat ∉ category_values) ∧
    (∀ s, r = BadPriority s ↔
          lower cat ∈ category_values ∧ s = pri ∧
          lower pri ∉ priority_values) ∧
    (r = Added (next_id_of ns) t ↔
     lower cat ∈ category_values ∧ lower pri ∈ priority_values).
Proof.
  intros Hl. destruct (load_notes w) as [o w1] eqn:Hw. simpl in Hl. subst o.
  rewrite (add_note_loaded w ns w1 t c cat pri tg Hw).
  pose proof (enum_call_accepts [WORK; PERSONAL; STUDY; SHOPPING; IDEAS; OTHER]
                category_value (lower cat)) as Hc.
  pose proof (enum_call_accepts [LOW; MEDIUM; HIGH] priority_value (lower pri))
    as Hp.
  fold NoteCategory_call in Hc. fold category_values in Hc.
  fold NotePriority_call in Hp. fold priority_values in Hp.
  destruct (NoteCategory_call (JStr (lower cat))) as [ncat| |];
    [destruct (NotePriority_call (JStr (lower pri))) as [npri| |] |..];
    eexists; (split; [done|]); naive_solver.
Qed.

(** X25.  The validation of an Edit of an id the collection has: the
    category is checked before the priority, each only when given and not
    empty, and the note is updated exactly when neither is refused. *)
Theorem edit_note_validation (w : World) (ns : list Note) (i : Z)
    (t c cat pri : option string) (tg : option (list string)) :
  (load_notes w).1 = Return ns → i ∈ ids ns →
  ∃ r, (edit_note i t c cat pri tg w).1 = Return r ∧
    (∀ s, r = BadCategory s ↔
          supplied cat = Some s ∧ lower s ∉ category_values) ∧
    (∀ s, r = BadPriority s ↔
          accepted cat category_values ∧
          supplied pri = Some s ∧ lower s ∉ priority_values) ∧
    ((∃ t', r = Updated i t') ↔
     accepted cat category_values ∧ accepted pri priority_values).
Proof.
  intros Hl Hi. destruct (load_notes w) as [o w1] eqn:Hw. simpl in Hl. subst o.
  rewrite (edit_note_loaded w ns w1 i t c cat pri tg Hw).
  destruct (find_note i ns) as [[[b n] a]|] eqn:E;
    [|by apply find_note_None in E].
  pose proof (validated_spec cat [WORK; PERSONAL; STUDY; SHOPPING; IDEAS; OTHER]
                category_value BadCategory) as Hc.
  fold NoteCategory_call in Hc. fold category_values in Hc.
  destruct (validated cat NoteCategory_call BadCategory) as [r|ncat].
  { destruct Hc as (s & Hs & -> & Hno). eexists. split; [done|].
    unfold accepted. rewrite Hs. naive_solver. }
  destruct Hc as [Hc _].
  pose proof (validated_spec pri [LOW; MEDIUM; HIGH] priority_value
                BadPriority) as Hp.
  fold NotePriority_call in Hp. fold priority_values in Hp.
  destruct (validated pri NotePriority_call BadPriority) as [r|npri].
  { destruct Hp as (s & Hs & -> & Hno). eexists. split; [done|].
    unfold accepted in *. rewrite Hs. naive_solver. }
  destruct Hp as [Hp _].
  eexists. split; [done|]. unfold accepted in *. naive_solver.
Qed.

End Editing.


Lemma unknown_id_not_found_witness :
  (@edit_note SampleClock AsciiLower 999 None None (Some "nowhere") None None
     two_notes_world).1 = Return (NotFound 999).
Proof.
  apply (@unknown_id_not_found SampleClock AsciiLower two_notes_world
           [milk; report] 999 None None (Some "nowhere") None None
           load_two_notes_world).
  apply (bool_decide_unpack _). vm_compute. reflexivity.
Defined.

Lemma missing_file_as_empty_list_witness :
  @run SampleClock AsciiLower IsoShape (Search "milk" "all") fresh_world
  = (Return NoNotes, mkWorld (Some (Document (JArr []))) 0).
Proof.
  exact (proj2 (@missing_file_as_empty_list SampleClock AsciiLower IsoShape
                  (Search "milk" "all") 0) I).
Defined.

Lemma add_note_validation_witness :
  ∃ r, (@add_note SampleClock AsciiLower "Call" "the bank" EmptyString "low"
          None two_notes_world).1 = Return r
       ∧ (∀ s, r = BadCategory s ↔
               s = EmptyString
               ∧ @lower AsciiLower EmptyString ∉ category_values).
Proof.
  destruct (@add_note_validation SampleClock AsciiLower two_notes_world
              [milk; report] "Call" "the bank" EmptyString "low" None
              load_two_notes_world)
    as (r & Hr & Hc & _).
  exists r. by split.
Defined.

Lemma edit_note_validation_witness :
  ∃ r, (@edit_note SampleClock AsciiLower 1 None None (Some "nowhere")
          (Some "urgent") None two_notes_world).1 = Return r
       ∧ (∀ s, r = BadCategory s ↔
               supplied (Some "nowhere") = Some s
               ∧ @lower AsciiLower s ∉ category_values).
Proof.
  destruct (@edit_note_validation SampleClock AsciiLower two_notes_world
              [milk; report] 1 None None (Some "nowhere") (Some "urgent")
              None load_two_notes_world)
    as (r & Hr & Hc & _).
  - left.
  - exists r. by split.
Defined.
